(** * csvalid: a CSV linter driven by a column schema

    A shallow embedding of [checks.js] (the rule engine [checkCell]) and of
    the record loop of [index.js] (the ['readable'] handler), with the
    properties of the specification stated over them.

    JavaScript strings are sequences of UTF-16 code units, numbers are
    IEEE 754 binary64 values, and a record of the tokenizer is either an
    array of strings or an object from header names to strings. *)

From Stdlib Require Import ZArith NArith List String Ascii Bool Lia.
From Stdlib Require Import Floats.SpecFloat DecimalString.
From stdpp Require Import base option list countable gmap.

Import ListNotations.
Local Open Scope N_scope.

(** ** Strings *)

(** A string value: its UTF-16 code units, each below [0x10000]. *)
Abbreviation jsstring := (list N).

(** A string literal of the source, written with ASCII characters. *)
Definition js (s : string) : jsstring :=
  map N_of_ascii (list_ascii_of_string s).

(** [WhiteSpace] and [LineTerminator] code units, as [String.prototype.trim],
    [parseInt] and [parseFloat] skip them. *)
Definition is_white_space (c : N) : bool :=
  (9 <=? c) && (c <=? 13)
  || (c =? 32) || (c =? 160) || (c =? 5760)
  || (8192 <=? c) && (c <=? 8202)
  || (c =? 8232) || (c =? 8233) || (c =? 8239) || (c =? 8287)
  || (c =? 12288) || (c =? 65279).

Fixpoint trim_start (s : jsstring) : jsstring :=
  match s with
  | c :: s' => if is_white_space c then trim_start s' else s
  | [] => []
  end.

Definition trim_end (s : jsstring) : jsstring := rev (trim_start (rev s)).

(** [String.prototype.trim] *)
Definition trim (s : jsstring) : jsstring := trim_end (trim_start s).

(** The relational comparison [a < b] of two strings: code unit by code
    unit, a proper prefix sorting first. *)
Fixpoint string_lt (a b : jsstring) : bool :=
  match a, b with
  | _, [] => false
  | [], _ :: _ => true
  | x :: a', y :: b' =>
      if x <? y then true else if y <? x then false else string_lt a' b'
  end.

Definition string_eqb (a b : jsstring) : bool := bool_decide (a = b).

Definition starts_with (p s : jsstring) : bool :=
  string_eqb (firstn (List.length p) s) p.

(** ** [Buffer.from(string)]: the UTF-8 encoding *)

Definition is_high_surrogate (c : N) : bool := (55296 <=? c) && (c <=? 56319).
Definition is_low_surrogate (c : N) : bool := (56320 <=? c) && (c <=? 57343).

(** Code points of a string; a surrogate without its partner becomes
    U+FFFD, as the encoder of [Buffer.from] does. *)
Fixpoint code_points (s : jsstring) : list N :=
  match s with
  | [] => []
  | c :: rest =>
      if is_high_surrogate c then
        match rest with
        | d :: rest' =>
            if is_low_surrogate d
            then (65536 + (c - 55296) * 1024 + (d - 56320)) :: code_points rest'
            else 65533 :: code_points rest
        | [] => [65533]
        end
      else if is_low_surrogate c then 65533 :: code_points rest
      else c :: code_points rest
  end.

Definition utf8_of_code_point (cp : N) : list N :=
  if cp <? 128 then [cp]
  else if cp <? 2048 then
    [N.lor 192 (N.shiftr cp 6); N.lor 128 (N.land cp 63)]
  else if cp <? 65536 then
    [N.lor 224 (N.shiftr cp 12);
     N.lor 128 (N.land (N.shiftr cp 6) 63);
     N.lor 128 (N.land cp 63)]
  else
    [N.lor 240 (N.shiftr cp 18);
     N.lor 128 (N.land (N.shiftr cp 12) 63);
     N.lor 128 (N.land (N.shiftr cp 6) 63);
     N.lor 128 (N.land cp 63)].

Definition utf8_encode (s : jsstring) : list N :=
  flat_map utf8_of_code_point (code_points s).

(** ** Numbers *)

(** A Number value: a binary64 float, [S754_nan] being [NaN]. *)
Definition number : Type := spec_float.

Definition prec64 : Z := 53.
Definition emax64 : Z := 1024.

(** The Number value of a non-zero integer: round to nearest, ties to even,
    overflowing to an infinity. *)
Definition Number_of_pos (neg : bool) (m : positive) : number :=
  binary_round prec64 emax64 neg m 0.

(** The Number value of [m * 10 ^ e] for a decimal literal. *)
Definition Number_of_decimal (neg : bool) (m : N) (e : Z) : number :=
  match m with
  | N0 => S754_zero neg
  | Npos p =>
      match e with
      | Zneg k =>
          let '(mz, ez, lz) :=
            SFdiv_core_binary prec64 emax64 (Zpos p) 0 (Z.pow 10 (Zpos k)) 0 in
          binary_round_aux prec64 emax64 neg mz ez lz
      | _ => Number_of_pos neg (p * Z.to_pos (Z.pow 10 e))
      end
  end.

(** The global [isFinite] on a Number *)
Definition isFinite (x : number) : bool :=
  match x with
  | S754_nan | S754_infinity _ => false
  | _ => true
  end.

(** [x >= y] on Numbers: false when [x < y] or when either is [NaN]. *)
Definition number_ge (x y : number) : bool :=
  match SFcompare x y with
  | Some Lt | None => false
  | Some _ => true
  end.

(** [x <= y] on Numbers: false when [y < x] or when either is [NaN]. *)
Definition number_le (x y : number) : bool :=
  match SFcompare y x with
  | Some Lt | None => false
  | Some _ => true
  end.

(** The digit a code unit stands for in a radix up to 36, if any. *)
Definition digit_value (radix c : N) : option N :=
  let v :=
    if (48 <=? c) && (c <=? 57) then Some (c - 48)
    else if (97 <=? c) && (c <=? 122) then Some (c - 87)
    else if (65 <=? c) && (c <=? 90) then Some (c - 55)
    else None in
  match v with
  | Some d => if d <? radix then Some d else None
  | None => None
  end.

(** The longest prefix of radix digits, as digit values, and what follows. *)
Fixpoint span_digits (radix : N) (s : jsstring) : list N * jsstring :=
  match s with
  | c :: s' =>
      match digit_value radix c with
      | Some d => let '(ds, rest) := span_digits radix s' in (d :: ds, rest)
      | None => ([], s)
      end
  | [] => ([], [])
  end.

(** The integer a digit sequence denotes, most significant digit first. *)
Definition digits_value (radix : N) (ds : list N) : N :=
  fold_left (fun acc d => acc * radix + d) ds 0.

(** Whether a string is not empty and its first code unit is [c]. *)
Definition head_is (c : N) (s : jsstring) : bool :=
  match s with
  | x :: _ => x =? c
  | [] => false
  end.

(** The Number value of a sign and a magnitude; zero keeps the sign. *)
Definition Number_of_integer (neg : bool) (n : N) : number :=
  match n with
  | N0 => S754_zero neg
  | Npos p => Number_of_pos neg p
  end.

(** The global [parseInt] with no radix argument, on a string: leading
    white space is dropped, then a sign, then [0x] or [0X], which selects
    radix 16; the digits that follow give the value, and there must be
    one. *)
Definition parseInt (input : jsstring) : number :=
  let str := trim_start input in
  let sign := head_is 45 str in
  let str := if head_is 43 str || head_is 45 str then tl str else str in
  let hex := starts_with (js "0x") str || starts_with (js "0X") str in
  let R := if hex then 16 else 10 in
  let str := if hex then skipn 2 str else str in
  match fst (span_digits R str) with
  | [] => S754_nan
  | digits => Number_of_integer sign (digits_value R digits)
  end.

(** The exponent part [e], [e+] or [e-] followed by digits at the head of
    a string, if there is one. *)
Definition exponent_part (s : jsstring) : option Z :=
  match s with
  | 101 :: s' | 69 :: s' =>
      let '(neg, s'') := match s' with
                         | 43 :: t => (false, t)
                         | 45 :: t => (true, t)
                         | _ => (false, s')
                         end in
      match fst (span_digits 10 s'') with
      | [] => None
      | ds => let v := Z.of_N (digits_value 10 ds) in
              Some (if neg then (- v)%Z else v)
      end
  | _ => None
  end.

(** The global [parseFloat] on a string: the longest prefix that is a
    [StrDecimalLiteral], after leading white space. *)
Definition parseFloat (input : jsstring) : number :=
  let str := trim_start input in
  let '(neg, str) := match str with
                   | 43 :: t => (false, t)
                   | 45 :: t => (true, t)
                   | _ => (false, str)
                   end in
  if starts_with (js "Infinity") str then S754_infinity neg
  else
    let '(ip, S1) := span_digits 10 str in
    let '(fp, S2) := match S1 with
                     | 46 :: t => span_digits 10 t
                     | _ => ([], S1)
                     end in
    match ip ++ fp with
    | [] => S754_nan
    | ds =>
        let e := match exponent_part S2 with Some e => e | None => 0%Z end in
        Number_of_decimal neg (digits_value 10 ds)
                          (e - Z.of_nat (List.length fp))
    end.

(** Decimal rendering of an integer, as a template literal prints it. *)
Definition show_Z (z : Z) : jsstring := js (NilZero.string_of_int (Z.to_int z)).

(** ** Cells, errors and effects *)

(** What the driver hands to [checkCell]: a string of the record;
    [undefined] where the record has no such element or property; or,
    where the record has no property of its own under a name that
    [Object.prototype] has, that member: a function or an object, kept
    here by the string it converts to. *)
Inductive cellval : Type :=
  | VUndefined
  | VString (s : jsstring)
  | VObject (str : jsstring).

(** [ToString] of a cell *)
Definition ToString (cell : cellval) : jsstring :=
  match cell with
  | VUndefined => js "undefined"
  | VString s => s
  | VObject str => str
  end.

(** [cell === s] and [cell !== s] against a string *)
Definition strict_eq (cell : cellval) (s : jsstring) : bool :=
  match cell with
  | VUndefined => false
  | VString c => string_eqb c s
  | VObject _ => false
  end.

(** [cell >= b] against a string: two strings compare by code units;
    [undefined] converts to [NaN] and compares false; a function or an
    object converts to its string, through [valueOf] and [toString]. *)
Definition cell_ge_string (cell : cellval) (b : jsstring) : bool :=
  match cell with
  | VUndefined => false
  | VString c => negb (string_lt c b)
  | VObject str => negb (string_lt str b)
  end.

(** [cell <= b] against a string *)
Definition cell_le_string (cell : cellval) (b : jsstring) : bool :=
  match cell with
  | VUndefined => false
  | VString c => negb (string_lt b c)
  | VObject str => negb (string_lt b str)
  end.

Inductive Error : Type :=
  | TypeError
  | SyntaxError.

Inductive Result (A : Type) : Type :=
  | Ok (a : A)
  | Throw (e : Error).
Arguments Ok {A} a.
Arguments Throw {A} e.

Definition bindR {A B} (r : Result A) (k : A -> Result B) : Result B :=
  match r with
  | Ok a => k a
  | Throw e => Throw e
  end.

Declare Scope result_scope.
Delimit Scope result_scope with result.
Notation "'let!' x := r 'in' k" := (bindR r (fun x => k))
  (at level 10, x name, r at level 200, k at level 200) : result_scope.

(** [Buffer.from(cell)]: the bytes of a string, a [TypeError] otherwise. *)
Definition Buffer_from (cell : cellval) : Result (list N) :=
  match cell with
  | VUndefined => Throw TypeError
  | VString s => Ok (utf8_encode s)
  | VObject _ => Throw TypeError
  end.

(** [cell.trim()]: a [TypeError] on [undefined], and on a member of
    [Object.prototype], which has no [trim]. *)
Definition cell_trim (cell : cellval) : Result jsstring :=
  match cell with
  | VUndefined => Throw TypeError
  | VString s => Ok (trim s)
  | VObject _ => Throw TypeError
  end.

(** ** Column definitions *)

(** [minVal] and [maxVal] by their [typeof]: a number, a string, or
    anything else (absent included). *)
Inductive bound : Type :=
  | NoBound
  | NumBound (n : number)
  | StrBound (s : jsstring).

(** One entry of [columnDefs]. A flag is the truthiness of its property;
    [regex] is the pattern when the property holds a string. *)
Record ColDef : Type := {
  isEmpty : bool;
  noEmpty : bool;
  isAscii : bool;
  isTrim : bool;
  regex : option jsstring;
  isInt : bool;
  isFloat : bool;
  minVal : bound;
  maxVal : bound
}.

(** The column definition [{}] *)
Definition no_rules : ColDef :=
  {| isEmpty := false; noEmpty := false; isAscii := false; isTrim := false;
     regex := None; isInt := false; isFloat := false;
     minVal := NoBound; maxVal := NoBound |}.

(** Truthiness of [colDef.regex]: a non-empty string. *)
Definition regex_source (colDef : ColDef) : option jsstring :=
  match regex colDef with
  | Some [] | None => None
  | Some src => Some src
  end.

(** The messages of [checkCell] *)
Definition msg_isnt_empty : jsstring := js "isn't empty when it should be".
Definition msg_is_empty : jsstring := js "is empty when it shouldn't be".
Definition msg_ascii : jsstring :=
  js "contains characters other than 7-bit ASCII printing characters".
Definition msg_trim : jsstring := js "contains leading or trailing whitespace".
Definition msg_regex : jsstring := js "does not match regular expression".
Definition msg_int : jsstring := js "is not a finite integer".
Definition msg_float : jsstring := js "is not a finite floating-point number".
Definition msg_min_num : jsstring :=
  js "is below minimum numeric value or is not a number".
Definition msg_min_str : jsstring := js "sorts before minimum string value".
Definition msg_max_num : jsstring :=
  js "is above maximum numeric value or is not a number".
Definition msg_max_str : jsstring := js "sorts after maximum string value".

(** [msgs.push(m)] *)
Definition push (msgs : list jsstring) (m : jsstring) : list jsstring :=
  msgs ++ [m].

(** The byte loop of the ASCII rule: one push at the first byte outside
    [0x20..0x7E], then [break]. *)
Fixpoint ascii_loop (buf : list N) (msgs : list jsstring) : list jsstring :=
  match buf with
  | [] => msgs
  | b :: rest =>
      if (b <? 32) || (126 <? b) then push msgs msg_ascii
      else ascii_loop rest msgs
  end.

(** A regular expression engine for patterns free of metacharacters: the
    pattern compiles to the search for itself as a substring, any other
    pattern is refused. It instantiates the engine in closed examples. *)
Definition is_metachar (c : N) : bool :=
  existsb (N.eqb c) (js "\^$.|?*+()[]{}/").

Fixpoint substring_search (p s : jsstring) : bool :=
  starts_with p s ||
  match s with
  | [] => false
  | _ :: s' => substring_search p s'
  end.

Definition literal_RegExp (src : jsstring) : option (jsstring -> bool) :=
  if existsb is_metachar src then None else Some (substring_search src).

(** ** Schema, records and the state of a run *)

(** [namedColumnMode]: whether [schema.columnDefs] is an object, not an
    array. The tokenizer is started with [columns: namedColumnMode], so it
    yields objects in named mode and arrays otherwise. *)
Inductive Mode : Type :=
  | Positional
  | Named.

(** [schema.columnDefs]: an array of definitions, or an object whose
    properties are listed in the order of [Object.keys]. *)
Definition ColumnDefs (m : Mode) : Type :=
  match m with
  | Positional => list ColDef
  | Named => list (jsstring * ColDef)
  end.

(** One value of [parser.read()]. *)
Definition Rec (m : Mode) : Type :=
  match m with
  | Positional => list jsstring
  | Named => gmap jsstring jsstring
  end.

(** The schema file; a property that is missing is [None]. *)
Record Schema (m : Mode) : Type := {
  columns : option Z;
  skipRows : option Z;
  columnDefs : ColumnDefs m
}.
Arguments columns {m} _.
Arguments skipRows {m} _.
Arguments columnDefs {m} _.

(** The variables [colsShould] and [row] of the module and what has been
    written to [outstream]. The counts are integers: a Number is exact up
    to [2^53], far beyond any number of records. *)
Record World : Type := {
  colsShould : option Z;
  row : Z;
  outstream : list jsstring
}.

(** A statement: it changes the world and completes or throws. *)
Definition M (A : Type) : Type := World -> Result A * World.

Definition ret {A} (a : A) : M A := fun w => (Ok a, w).

Definition bindM {A B} (c : M A) (k : A -> M B) : M B :=
  fun w =>
    match c w with
    | (Ok a, w') => k a w'
    | (Throw e, w') => (Throw e, w')
    end.

Definition lift {A} (r : Result A) : M A := fun w => (r, w).

Definition get : M World := fun w => (Ok w, w).

Declare Scope stmt_scope.
Delimit Scope stmt_scope with stmt.
Notation "'do!' x := c 'in' k" := (bindM c (fun x => k))
  (at level 10, x name, c at level 200, k at level 200) : stmt_scope.
Notation "c ;; k" := (bindM c (fun _ => k))
  (at level 100, k at level 200, right associativity) : stmt_scope.

(** [row++] *)
Definition incr_row : M unit :=
  fun w => (Ok tt, {| colsShould := colsShould w;
                      row := (row w + 1)%Z;
                      outstream := outstream w |}).

(** [colsShould = v] *)
Definition set_colsShould (v : option Z) : M unit :=
  fun w => (Ok tt, {| colsShould := v;
                      row := row w;
                      outstream := outstream w |}).

(** [outstream.write(line)] *)
Definition write (line : jsstring) : M unit :=
  fun w => (Ok tt, {| colsShould := colsShould w;
                      row := row w;
                      outstream := outstream w ++ [line] |}).

(** [l.forEach((x, idx) => f)] with a callback that may throw. *)
Fixpoint forEach {A} (f : A -> nat -> M unit) (l : list A) (idx : nat) : M unit :=
  match l with
  | [] => ret tt
  | x :: l' => bindM (f x idx) (fun _ => forEach f l' (S idx))
  end.

(** Truthiness of [colsShould]: a number other than 0. *)
Definition truthy (v : option Z) : bool :=
  match v with
  | Some n => negb (n =? 0)%Z
  | None => false
  end.

(** [row <= schema.skipRows]; false against [undefined]. *)
Definition row_le_skipRows (r : Z) (skip : option Z) : bool :=
  match skip with
  | Some k => (r <=? k)%Z
  | None => false
  end.

(** [Object.keys(rec)]; only its length and, in a record of one property,
    its first element are used. *)
Definition Object_keys (rec : gmap jsstring jsstring) : list jsstring :=
  (map_to_list rec).*1.

(** [rec[idx]]: [undefined] where the array has no such element. *)
Definition array_get (rec : list jsstring) (idx : nat) : cellval :=
  match rec !! idx with
  | Some s => VString s
  | None => VUndefined
  end.

(** The methods of [Object.prototype] besides [constructor]. *)
Definition Object_prototype_methods : list jsstring :=
  [js "__defineGetter__"; js "__defineSetter__"; js "hasOwnProperty";
   js "__lookupGetter__"; js "__lookupSetter__"; js "isPrototypeOf";
   js "propertyIsEnumerable"; js "toString"; js "valueOf";
   js "toLocaleString"].

(** [Object.prototype[key]]: [__proto__] reads as [Object.prototype]
    itself, [constructor] is [Object], the other members are the methods,
    each a native function printed under its own name. *)
Definition Object_prototype (key : jsstring) : cellval :=
  if string_eqb key (js "__proto__") then VObject (js "[object Object]")
  else if string_eqb key (js "constructor")
  then VObject (js "function Object() { [native code] }")
  else if existsb (string_eqb key) Object_prototype_methods
  then VObject (js "function " ++ key ++ js "() { [native code] }")
  else VUndefined.

(** [rec[key]]: the record's own property, else what the record, a plain
    object, inherits from [Object.prototype] under that name, else
    [undefined]. *)
Definition object_get (rec : gmap jsstring jsstring) (key : jsstring) : cellval :=
  match rec !! key with
  | Some s => VString s
  | None => Object_prototype key
  end.

(** [isRowBlank] *)
Definition isRowBlank {m : Mode} : Rec m -> bool :=
  match m with
  | Positional => fun rec =>
      (List.length rec =? 1)%nat && strict_eq (array_get rec 0) []
  | Named => fun rec =>
      let keys := Object_keys rec in
      (List.length keys =? 1)%nat &&
      match keys !! 0%nat with
      | Some k => strict_eq (object_get rec k) []
      | None => false
      end
  end.

(** [namedColumnMode ? Object.keys(rec).length : rec.length] *)
Definition colsThis {m : Mode} : Rec m -> Z :=
  match m with
  | Positional => fun rec => Z.of_nat (List.length rec)
  | Named => fun rec => Z.of_nat (List.length (Object_keys rec))
  end.

(** [${v}] for [colsShould] *)
Definition show_count (v : option Z) : jsstring :=
  match v with
  | Some n => show_Z n
  | None => js "undefined"
  end.

(** The lines written to [outstream] *)
Definition line_blank (r : Z) : jsstring :=
  js "(Row " ++ show_Z r ++ js "): is a blank line" ++ [10].

Definition line_count (r : Z) (should : option Z) (this : Z) : jsstring :=
  js "(Row " ++ show_Z r ++ js "): inconsistent column count, expected "
    ++ show_count should ++ js ", found " ++ show_Z this ++ [10].

Definition line_named (r : Z) (key msgmid : jsstring) : jsstring :=
  js "(Row " ++ show_Z r ++ js ", Col '" ++ key ++ js "'): " ++ msgmid ++ [10].

Definition line_positional (r : Z) (idx : nat) (msgmid : jsstring) : jsstring :=
  js "(Row " ++ show_Z r ++ js ", Col " ++ show_Z (Z.of_nat idx + 1)
    ++ js "): " ++ msgmid ++ [10].

(** [row = namedColumnMode ? 1 : 0] *)
Definition initial_row (m : Mode) : Z :=
  match m with
  | Named => 1
  | Positional => 0
  end.

(** The state when the first record arrives. *)
Definition initial {m : Mode} (schema : Schema m) : World :=
  {| colsShould := columns schema;
     row := initial_row m;
     outstream := [] |}.

(** ** Notions used to state the properties *)

(** The number of times a message occurs in a message sequence. *)
Definition occurrences (m : jsstring) (msgs : list jsstring) : nat :=
  List.length (filter (fun x => x = m) msgs).

(** What each rule contributes for a string cell, in the order of the
    rules. *)
Definition emptiness_part (s : jsstring) (d : ColDef) : list jsstring :=
  if isEmpty d then (if string_eqb s [] then [] else [msg_isnt_empty])
  else if noEmpty d then (if string_eqb s [] then [msg_is_empty] else [])
  else [].

Definition ascii_part (s : jsstring) (d : ColDef) : list jsstring :=
  if isAscii d then ascii_loop (utf8_encode s) [] else [].

Definition trim_part (s : jsstring) (d : ColDef) : list jsstring :=
  if isTrim d then (if string_eqb s (trim s) then [] else [msg_trim]) else [].

Definition int_part (s : jsstring) (d : ColDef) : list jsstring :=
  if isInt d then (if isFinite (parseInt s) then [] else [msg_int]) else [].

Definition float_part (s : jsstring) (d : ColDef) : list jsstring :=
  if isFloat d then (if isFinite (parseFloat s) then [] else [msg_float]) else [].

Definition min_part (s : jsstring) (d : ColDef) : list jsstring :=
  match minVal d with
  | NumBound b => if number_ge (parseFloat s) b then [] else [msg_min_num]
  | StrBound b => if string_lt s b then [msg_min_str] else []
  | NoBound => []
  end.

Definition max_part (s : jsstring) (d : ColDef) : list jsstring :=
  match maxVal d with
  | NumBound b => if number_le (parseFloat s) b then [] else [msg_max_num]
  | StrBound b => if string_lt b s then [msg_max_str] else []
  | NoBound => []
  end.

(** The rule a message belongs to, by its position in [parts]. *)
Definition owner (m : jsstring) : nat :=
  if string_eqb m msg_isnt_empty || string_eqb m msg_is_empty then 0
  else if string_eqb m msg_ascii then 1
  else if string_eqb m msg_trim then 2
  else if string_eqb m msg_regex then 3
  else if string_eqb m msg_int then 4
  else if string_eqb m msg_float then 5
  else if string_eqb m msg_min_num || string_eqb m msg_min_str then 6
  else if string_eqb m msg_max_num || string_eqb m msg_max_str then 7
  else 8.

(** A column definition with a string minimum and nothing else. *)
Definition minVal_string (b : jsstring) : ColDef :=
  {| isEmpty := false; noEmpty := false; isAscii := false; isTrim := false;
     regex := None; isInt := false; isFloat := false;
     minVal := StrBound b; maxVal := NoBound |}.

(** A column definition with [isInt] and nothing else. *)
Definition isInt_only : ColDef :=
  {| isEmpty := false; noEmpty := false; isAscii := false; isTrim := false;
     regex := None; isInt := true; isFloat := false;
     minVal := NoBound; maxVal := NoBound |}.

(** A code unit that is a digit in the radix. *)
Definition is_digit (radix c : N) : Prop := digit_value radix c <> None.

(** The value of a digit, 0 for any other code unit. *)
Definition digit_of (radix c : N) : N :=
  match digit_value radix c with
  | Some d => d
  | None => 0
  end.

(** A string that does not go on with a digit of the radix. *)
Definition no_digit_ahead (radix : N) (rest : jsstring) : Prop :=
  match rest with
  | c :: _ => digit_value radix c = None
  | [] => True
  end.

(** The integer a run of digits denotes is finite as a Number: it is
    below [2^1024 - 2^970], from where on binary64 rounds to infinity. *)
Definition finite_integer (radix : N) (digits : jsstring) : Prop :=
  digits_value radix (map (digit_of radix) digits) < 2 ^ 1024 - 2 ^ 970.

(** Following the specification: the cell's content begins with an
    optionally signed sequence of decimal digits forming a finite
    integer. *)
Definition spec_begins_with_integer (cell : jsstring) : Prop :=
  exists sign digits rest,
    cell = sign ++ digits ++ rest /\
    (sign = [] \/ sign = js "+" \/ sign = js "-") /\
    digits <> [] /\
    Forall (is_digit 10) digits /\
    no_digit_ahead 10 rest /\
    finite_integer 10 digits.

(** What [parseInt] accepts: white space, an optional sign, then either
    [0x] or [0X] and hexadecimal digits, or decimal digits that do not
    start such a prefix; the digits, taken as far as they go, form a
    finite integer. *)
Definition begins_with_integer (cell : jsstring) : Prop :=
  exists ws sign prefix digits rest,
    cell = ws ++ sign ++ prefix ++ digits ++ rest /\
    Forall (fun c => is_white_space c = true) ws /\
    (sign = [] \/ sign = js "+" \/ sign = js "-") /\
    (prefix = [] /\
       ~ (exists t, digits ++ rest = js "0x" ++ t \/ digits ++ rest = js "0X" ++ t)
     \/ prefix = js "0x" \/ prefix = js "0X") /\
    let radix := match prefix with [] => 10 | _ => 16 end in
    digits <> [] /\
    Forall (is_digit radix) digits /\
    no_digit_ahead radix rest /\
    finite_integer radix digits.

(** Whether a string starts with white space. *)
Definition starts_white (s : jsstring) : bool :=
  match s with
  | c :: _ => is_white_space c
  | [] => false
  end.

(** [parseInt] once the white space and the sign are gone. *)
Definition parse_unsigned (neg : bool) (str : jsstring) : number :=
  let hex := starts_with (js "0x") str || starts_with (js "0X") str in
  let R := if hex then 16 else 10 in
  let str := if hex then skipn 2 str else str in
  match fst (span_digits R str) with
  | [] => S754_nan
  | digits => Number_of_integer neg (digits_value R digits)
  end.

Definition unsigned_integer (str : jsstring) : Prop :=
  exists prefix digits rest,
    str = prefix ++ digits ++ rest /\
    (prefix = [] /\
       ~ (exists t, digits ++ rest = js "0x" ++ t \/ digits ++ rest = js "0X" ++ t)
     \/ prefix = js "0x" \/ prefix = js "0X") /\
    let radix := match prefix with [] => 10 | _ => 16 end in
    digits <> [] /\
    Forall (is_digit radix) digits /\
    no_digit_ahead radix rest /\
    finite_integer radix digits.

(** The world after more lines have been written. *)
Definition append_out (w : World) (lines : list jsstring) : World :=
  {| colsShould := colsShould w;
     row := row w;
     outstream := outstream w ++ lines |}.

(** What a [forEach] writes and how it ends, from what each call of its
    callback writes and how that call ends. *)
Fixpoint forEach_lines {A} (F : A -> nat -> list jsstring * Result unit)
    (l : list A) (idx : nat) : list jsstring * Result unit :=
  match l with
  | [] => ([], Ok tt)
  | x :: l' =>
      match F x idx with
      | (ls, Ok _) =>
          let '(ls', r) := forEach_lines F l' (S idx) in (ls ++ ls', r)
      | (ls, Throw e) => (ls, Throw e)
      end
  end.

(** The expected column count in effect for a counted record with [this]
    fields: [colsShould], or [this] itself when nothing is set yet. *)
Definition expected (w : World) (this : Z) : option Z :=
  if truthy (colsShould w) then colsShould w else Some this.

(** A record that is blank: exactly one field, and it is the empty
    string. *)
Definition blank {m : Mode} : Rec m -> Prop :=
  match m with
  | Positional => fun rec => rec = [[]]
  | Named => fun rec => exists key : jsstring, rec = {[ key := [] ]}
  end.

(** The record holds a cell for every configured column. *)
Definition all_present {m : Mode} : ColumnDefs m -> Rec m -> Prop :=
  match m with
  | Positional => fun defs rec => (List.length defs <= List.length rec)%nat
  | Named => fun defs rec =>
      Forall (fun entry : jsstring * ColDef => rec !! fst entry <> None) defs
  end.

(** Following the specification: an absent cell is treated as the empty
    string. *)
Definition absent_as_empty (cell : option jsstring) : cellval :=
  match cell with
  | Some s => VString s
  | None => VString []
  end.

(** ** Notions for the rounding of integers to binary64 *)

(** What [k] right shifts leave of [M]: the quotient, and in the round
    bit the last bit shifted out. *)
Definition shifted (M k : Z) (rec : shr_record) : Prop :=
  (shr_m rec = M / 2 ^ k /\ (0 < k -> shr_r rec = Z.testbit M (k - 1)))%Z.

(** The second half of [binary_round_aux]: renormalising the rounded
    mantissa and testing the exponent. *)
Definition renormalise (sx : bool) (m1 e : Z) : number :=
  let '(mrs, e') := shr_fexp 53%Z 1024%Z m1 e loc_Exact in
  match shr_m mrs with
  | Z0 => S754_zero sx
  | Zpos m => if (e' <=? 971)%Z then S754_finite sx m e' else S754_infinity sx
  | Zneg _ => S754_nan
  end.

(** ** Column definitions, schemas and records of the examples *)

Definition noEmpty_only : ColDef :=
  {| isEmpty := false; noEmpty := true; isAscii := false; isTrim := false;
     regex := None; isInt := false; isFloat := false;
     minVal := NoBound; maxVal := NoBound |}.

Definition isTrim_only : ColDef :=
  {| isEmpty := false; noEmpty := false; isAscii := false; isTrim := true;
     regex := None; isInt := false; isFloat := false;
     minVal := NoBound; maxVal := NoBound |}.

(** [{isEmpty: true, noEmpty: true, isAscii: true, regex: "b"}] *)
Definition empty_ascii_pattern : ColDef :=
  {| isEmpty := true; noEmpty := true; isAscii := true; isTrim := false;
     regex := Some (js "b"); isInt := false; isFloat := false;
     minVal := NoBound; maxVal := NoBound |}.

(** [{minVal: 1.5, maxVal: "m"}] *)
Definition mixed_bounds : ColDef :=
  {| isEmpty := false; noEmpty := false; isAscii := false; isTrim := false;
     regex := None; isInt := false; isFloat := false;
     minVal := NumBound (parseFloat (js "1.5")); maxVal := StrBound (js "m") |}.

(** [{columns: 2, columnDefs: [{}, {noEmpty: true}]}] *)
Definition schema_two_columns : Schema Positional :=
  {| columns := Some 2%Z; skipRows := None;
     columnDefs := ([no_rules; noEmpty_only] : ColumnDefs Positional) |}.

(** [{columns: 2, skipRows: 1, columnDefs: [{}, {noEmpty: true}]}] *)
Definition schema_skip_one : Schema Positional :=
  {| columns := Some 2%Z; skipRows := Some 1%Z;
     columnDefs := ([no_rules; noEmpty_only] : ColumnDefs Positional) |}.

(** [{columns: 3, columnDefs: [{noEmpty: true}, {isInt: true}]}] *)
Definition schema_three_columns : Schema Positional :=
  {| columns := Some 3%Z; skipRows := Some 0%Z;
     columnDefs := ([noEmpty_only; isInt_only] : ColumnDefs Positional) |}.

(** [{columns: 2, columnDefs: [{}, {isTrim: true}]}] *)
Definition schema_trim : Schema Positional :=
  {| columns := Some 2%Z; skipRows := None;
     columnDefs := ([no_rules; isTrim_only] : ColumnDefs Positional) |}.

(** [{columnDefs: {name: {noEmpty: true}}}] *)
Definition schema_named : Schema Named :=
  {| columns := None; skipRows := None;
     columnDefs := ([(js "name", noEmpty_only)] : ColumnDefs Named) |}.

(** [{columns: 0, columnDefs: [{}, {noEmpty: true}]}] *)
Definition schema_zero_columns : Schema Positional :=
  {| columns := Some 0%Z; skipRows := None;
     columnDefs := ([no_rules; noEmpty_only] : ColumnDefs Positional) |}.

(** [{regex: "native"}] *)
Definition regex_native : ColDef :=
  {| isEmpty := false; noEmpty := false; isAscii := false; isTrim := false;
     regex := Some (js "native"); isInt := false; isFloat := false;
     minVal := NoBound; maxVal := NoBound |}.

(** [{columnDefs: {toString: {regex: "native"}, other: {regex: "native"}}}] *)
Definition schema_inherited : Schema Named :=
  {| columns := None; skipRows := None;
     columnDefs := ([(js "toString", regex_native); (js "other", regex_native)]
                    : ColumnDefs Named) |}.

Definition record_a : Rec Positional := [js "a"].
Definition record_blank : Rec Positional := [[]].
Definition record_empty_x : Rec Positional := [[]; js "x"].
Definition record_named_blank : Rec Named := {[ js "name" := [] ]}.
Definition record_named_x : Rec Named := {[ js "name" := js "x" ]}.

(** ** Notions used to state further properties *)

(** Whether a string ends with white space. *)
Definition ends_white (s : jsstring) : bool := starts_white (rev s).

(** A code unit, or a byte, outside [0x20..0x7E]. *)
Definition not_printable (c : N) : bool := (c <? 32) || (126 <? c).

(** The messages of [checkCell] in the order of the rules that push
    them. *)
Definition rule_order : list jsstring :=
  [msg_isnt_empty; msg_is_empty; msg_ascii; msg_trim; msg_regex; msg_int;
   msg_float; msg_min_num; msg_min_str; msg_max_num; msg_max_str].

(** A line that starts with the label of row [r]. *)
Definition line_of_row (r : Z) (line : jsstring) : Prop :=
  exists rest, line = js "(Row " ++ show_Z r ++ rest.

(** Two records hold the same cell, or both none, for every configured
    column. *)
Definition same_configured_cells {m : Mode}
    : ColumnDefs m -> Rec m -> Rec m -> Prop :=
  match m with
  | Positional => fun (defs : list ColDef) (rec1 rec2 : list jsstring) =>
      forall idx : nat, (idx < List.length defs)%nat -> rec1 !! idx = rec2 !! idx
  | Named => fun (defs : list (jsstring * ColDef))
                 (rec1 rec2 : gmap jsstring jsstring) =>
      Forall (fun entry : jsstring * ColDef =>
                rec1 !! fst entry = rec2 !! fst entry) defs
  end.

(** A configured column with [isAscii] or [isTrim] for which the record
    holds no cell. *)
Definition absent_cell_throws {m : Mode} : ColumnDefs m -> Rec m -> Prop :=
  match m with
  | Positional => fun (defs : list ColDef) (rec : list jsstring) =>
      exists (idx : nat) (d : ColDef),
        defs !! idx = Some d /\ rec !! idx = None /\
        (isAscii d = true \/ isTrim d = true)
  | Named => fun (defs : list (jsstring * ColDef))
                 (rec : gmap jsstring jsstring) =>
      exists (k : nat) (entry : jsstring * ColDef),
        defs !! k = Some entry /\ rec !! fst entry = None /\
        (isAscii (snd entry) = true \/ isTrim (snd entry) = true)
  end.

(** The column count line of the second version of the loop in [index.js]. *)
Definition line_schema_count (r : Z) (cols : option Z) (cnt : Z) : jsstring :=
  js "(Row " ++ show_Z r ++ js "): Schema specifies " ++ show_count cols
    ++ js " columns, found " ++ show_Z cnt ++ [10].


(** ** Further column definitions and records of the examples *)

(** [{minVal: "m", maxVal: "m"}] *)
Definition string_point : ColDef :=
  {| isEmpty := false; noEmpty := false; isAscii := false; isTrim := false;
     regex := None; isInt := false; isFloat := false;
     minVal := StrBound (js "m"); maxVal := StrBound (js "m") |}.

(** [{minVal: "n", maxVal: "m"}] *)
Definition string_empty_range : ColDef :=
  {| isEmpty := false; noEmpty := false; isAscii := false; isTrim := false;
     regex := None; isInt := false; isFloat := false;
     minVal := StrBound (js "n"); maxVal := StrBound (js "m") |}.

(** [{minVal: 1.5, maxVal: 1.5}] *)
Definition number_point : ColDef :=
  {| isEmpty := false; noEmpty := false; isAscii := false; isTrim := false;
     regex := None; isInt := false; isFloat := false;
     minVal := NumBound (parseFloat (js "1.5"));
     maxVal := NumBound (parseFloat (js "1.5")) |}.

Definition record_a_x : Rec Positional := [js "a"; js "x"].
Definition record_surplus : Rec Positional := [[]; js "x"; js "more"].
Section Csvalid.

(** [new RegExp(src)]: the [test] of the compiled pattern, or nothing when
    the pattern is malformed and the constructor throws. *)
Variable RegExp : jsstring -> option (jsstring -> bool).

Definition new_RegExp (src : jsstring) : Result (jsstring -> bool) :=
  match RegExp src with
  | Some re => Ok re
  | None => Throw SyntaxError
  end.

(** ** [checks.js] *)

Definition checkCell (cell : cellval) (colDef : ColDef) : Result (list jsstring) :=
  (let msgs := [] in
   (* Column must/mustn't be empty *)
   let msgs :=
     if isEmpty colDef then
       if negb (strict_eq cell []) then push msgs msg_isnt_empty else msgs
     else if noEmpty colDef then
       if strict_eq cell [] then push msgs msg_is_empty else msgs
     else msgs in
   (* Column must consist only of 7-bit ASCII printing characters *)
   let! msgs :=
     if isAscii colDef then
       let! buf := Buffer_from cell in
       Ok (ascii_loop buf msgs)
     else Ok msgs in
   (* Column must not contain leading or trailing whitespace *)
   let! msgs :=
     if isTrim colDef then
       let! trimmed := cell_trim cell in
       Ok (if negb (strict_eq cell trimmed) then push msgs msg_trim else msgs)
     else Ok msgs in
   (* Column must match a regex *)
   let! msgs :=
     match regex_source colDef with
     | Some src =>
         let! re := new_RegExp src in
         Ok (if negb (re (ToString cell)) then push msgs msg_regex else msgs)
     | None => Ok msgs
     end in
   (* Column must parse as a finite integer *)
   let msgs :=
     if isInt colDef then
       if negb (isFinite (parseInt (ToString cell)))
       then push msgs msg_int else msgs
     else msgs in
   (* Column must parse as a finite floating-point number *)
   let msgs :=
     if isFloat colDef then
       if negb (isFinite (parseFloat (ToString cell)))
       then push msgs msg_float else msgs
     else msgs in
   (* Column must meet a minimum (numeric or string) value *)
   let msgs :=
     match minVal colDef with
     | NumBound b =>
         if negb (number_ge (parseFloat (ToString cell)) b)
         then push msgs msg_min_num else msgs
     | StrBound b =>
         if negb (cell_ge_string cell b) then push msgs msg_min_str else msgs
     | NoBound => msgs
     end in
   (* Column must meet a maximum (numeric or string) value *)
   let msgs :=
     match maxVal colDef with
     | NumBound b =>
         if negb (number_le (parseFloat (ToString cell)) b)
         then push msgs msg_max_num else msgs
     | StrBound b =>
         if negb (cell_le_string cell b) then push msgs msg_max_str else msgs
     | NoBound => msgs
     end in
   Ok msgs)%result.

(** ** [index.js]: the loop over the records *)

(** [checkCell(cell, colDef).forEach(msgmid => outstream.write(...))] *)
Definition report_cell (line : jsstring -> jsstring) (cell : cellval)
    (colDef : ColDef) : M unit :=
  (do! msgs := lift (checkCell cell colDef) in
   forEach (fun msgmid _ => write (line msgmid)) msgs 0)%stmt.

(** For each cell in this row... *)
Definition check_cells {m : Mode} (r : Z) : ColumnDefs m -> Rec m -> M unit :=
  match m with
  | Named => fun defs rec =>
      forEach (fun (entry : jsstring * ColDef) _ =>
                 let key := fst entry in
                 report_cell (line_named r key) (object_get rec key) (snd entry))
              defs 0
  | Positional => fun defs rec =>
      forEach (fun colDef idx =>
                 report_cell (line_positional r idx) (array_get rec idx) colDef)
              defs 0
  end.

(** The body of [while (rec = parser.read())]. *)
Definition handle_record {m : Mode} (schema : Schema m) (rec : Rec m) : M unit :=
  (incr_row ;;
   do! w := get in
   if row_le_skipRows (row w) (skipRows schema) then ret tt
   else
     (* Check consistency of number of columns *)
     let this := colsThis rec in
     (if negb (truthy (colsShould w)) then set_colsShould (Some this)
      else ret tt) ;;
     if isRowBlank rec then write (line_blank (row w))
     else
       do! w := get in
       (if negb (bool_decide (Some this = colsShould w))
        then write (line_count (row w) (colsShould w) this)
        else ret tt) ;;
       check_cells (row w) (columnDefs schema) rec)%stmt.

(** The ['readable'] handler over the records the tokenizer yields, in
    order; a throw ends the process. *)
Fixpoint readable {m : Mode} (schema : Schema m) (recs : list (Rec m)) : M unit :=
  match recs with
  | [] => ret tt
  | rec :: rest => bindM (handle_record schema rec) (fun _ => readable schema rest)
  end.

(** ** The rule engine on a string cell *)

(** A column definition is well formed when its pattern, if it has one,
    compiles. *)
Definition well_formed (colDef : ColDef) : Prop :=
  match regex_source colDef with
  | Some src => RegExp src <> None
  | None => True
  end.

Definition regex_part (s : jsstring) (d : ColDef) : list jsstring :=
  match regex_source d with
  | Some src =>
      match RegExp src with
      | Some re => if re s then [] else [msg_regex]
      | None => []
      end
  | None => []
  end.

Definition parts (s : jsstring) (d : ColDef) : list (list jsstring) :=
  [emptiness_part s d; ascii_part s d; trim_part s d; regex_part s d;
   int_part s d; float_part s d; min_part s d; max_part s d].

(** ** The loop body on one record *)

(** Every configured column definition is well formed. *)
Definition all_well_formed {m : Mode} : ColumnDefs m -> Prop :=
  match m with
  | Positional => fun defs => Forall well_formed defs
  | Named => fun defs =>
      Forall (fun entry : jsstring * ColDef => well_formed (snd entry)) defs
  end.

(** What [report_cell] writes and how it ends. *)
Definition report_lines (line : jsstring -> jsstring) (cell : cellval)
    (colDef : ColDef) : list jsstring * Result unit :=
  match checkCell cell colDef with
  | Ok msgs => (map line msgs, Ok tt)
  | Throw e => ([], Throw e)
  end.

(** What [check_cells] writes and how it ends. *)
Definition cells_lines {m : Mode} (r : Z)
    : ColumnDefs m -> Rec m -> list jsstring * Result unit :=
  match m with
  | Named => fun defs rec =>
      forEach_lines (fun (entry : jsstring * ColDef) _ =>
                       report_lines (line_named r (fst entry))
                         (object_get rec (fst entry)) (snd entry))
                    defs 0
  | Positional => fun defs rec =>
      forEach_lines (fun colDef idx =>
                       report_lines (line_positional r idx)
                         (array_get rec idx) colDef)
                    defs 0
  end.

(** Following the specification: the rule engine is run on every
    configured column, an absent cell counting as the empty string. *)
Definition spec_cells_lines {m : Mode} (r : Z)
    : ColumnDefs m -> Rec m -> list jsstring * Result unit :=
  match m with
  | Named => fun defs rec =>
      forEach_lines (fun (entry : jsstring * ColDef) _ =>
                       report_lines (line_named r (fst entry))
                         (absent_as_empty (rec !! fst entry)) (snd entry))
                    defs 0
  | Positional => fun defs rec =>
      forEach_lines (fun colDef idx =>
                       report_lines (line_positional r idx)
                         (absent_as_empty (rec !! idx)) colDef)
                    defs 0
  end.

(** What each rule contributes for an absent cell, when it returns. *)
Definition absent_parts (d : ColDef) : list (list jsstring) :=
  [if isEmpty d then [msg_isnt_empty] else [];
   regex_part (js "undefined") d;
   if isInt d then [msg_int] else [];
   if isFloat d then [msg_float] else [];
   match minVal d with
   | NumBound _ => [msg_min_num]
   | StrBound _ => [msg_min_str]
   | NoBound => []
   end;
   match maxVal d with
   | NumBound _ => [msg_max_num]
   | StrBound _ => [msg_max_str]
   | NoBound => []
   end].

(** Every configured column passes its rules on the record. *)
Definition all_pass {m : Mode} : ColumnDefs m -> Rec m -> Prop :=
  match m with
  | Positional => fun (defs : list ColDef) (rec : list jsstring) =>
      forall (idx : nat) (d : ColDef),
        defs !! idx = Some d -> checkCell (array_get rec idx) d = Ok []
  | Named => fun (defs : list (jsstring * ColDef))
                 (rec : gmap jsstring jsstring) =>
      forall (k : nat) (entry : jsstring * ColDef),
        defs !! k = Some entry ->
        checkCell (object_get rec (fst entry)) (snd entry) = Ok []
  end.

(** The body of the second version of the loop in [index.js]: the column
    count is checked only against [schema.columns], and there is no test
    for blank lines. *)
Definition handle_record_explicit {m : Mode} (schema : Schema m) (rec : Rec m)
    : M unit :=
  (incr_row ;;
   do! w := get in
   if row_le_skipRows (row w) (skipRows schema) then ret tt
   else
     (* Explicit column count *)
     let colCnt := colsThis rec in
     (if truthy (columns schema)
         && negb (bool_decide (columns schema = Some colCnt))
      then write (line_schema_count (row w) (columns schema) colCnt)
      else ret tt) ;;
     check_cells (row w) (columnDefs schema) rec)%stmt.

(** ** Lemmas *)

(** ** Lemmas on the rounding of integers *)

Section Binary64.

Local Open Scope Z_scope.

Ltac std_Z :=
  change IntDef.Z.add with Z.add in *;
  change IntDef.Z.sub with Z.sub in *;
  change IntDef.Z.max with Z.max in *;
  change IntDef.Z.leb with Z.leb in *.

Lemma digits2_pos_bounds (p : positive) :
  2 ^ (Zpos (digits2_pos p) - 1) <= Zpos p < 2 ^ Zpos (digits2_pos p).
Proof.
  induction p as [p IH|p IH|]; simpl digits2_pos.
  - rewrite Pos2Z.inj_succ.
    replace (Z.succ (Zpos (digits2_pos p)) - 1) with (Z.succ (Zpos (digits2_pos p) - 1)) by lia.
    rewrite !Z.pow_succ_r by lia. lia.
  - rewrite Pos2Z.inj_succ.
    replace (Z.succ (Zpos (digits2_pos p)) - 1) with (Z.succ (Zpos (digits2_pos p) - 1)) by lia.
    rewrite !Z.pow_succ_r by lia. lia.
  - simpl. lia.
Qed.

Lemma digits2_pos_unique (p : positive) (d : Z) :
  2 ^ (d - 1) <= Zpos p < 2 ^ d -> 0 < d -> Zpos (digits2_pos p) = d.
Proof.
  intros [Hlo Hhi] Hd. pose proof (digits2_pos_bounds p) as [Hlo' Hhi'].
  destruct (Z.lt_trichotomy (Zpos (digits2_pos p)) d) as [H|[H|H]]; [|exact H|].
  - assert (2 ^ Zpos (digits2_pos p) <= 2 ^ (d - 1)) by (apply Z.pow_le_mono_r; lia). lia.
  - assert (2 ^ d <= 2 ^ (Zpos (digits2_pos p) - 1)) by (apply Z.pow_le_mono_r; lia). lia.
Qed.

Lemma digits2_pos_shift (p k : positive) :
  Zpos (digits2_pos (Pos.iter xO p k)) = Zpos (digits2_pos p) + Zpos k.
Proof.
  induction k as [|k IH] using Pos.peano_ind.
  - simpl. lia.
  - rewrite Pos.iter_succ. simpl digits2_pos. lia.
Qed.

Lemma shr_1_shifted (M k : Z) (rec : shr_record) :
  0 <= M -> 0 <= k -> shifted M k rec -> shifted M (k + 1) (shr_1 rec).
Proof.
  intros HM Hk [Hm _]. unfold shifted.
  assert (Hq : 0 <= M / 2 ^ k) by (apply Z.div_pos; lia).
  assert (Hdiv : M / 2 ^ (k + 1) = M / 2 ^ k / 2).
  { rewrite Z.pow_add_r, Z.pow_1_r by lia. rewrite Z.div_div by lia. reflexivity. }
  assert (Hbit : Z.testbit M (k + 1 - 1) = Z.odd (M / 2 ^ k)).
  { replace (k + 1 - 1) with k by lia.
    rewrite Z.testbit_odd, Z.shiftr_div_pow2 by lia. reflexivity. }
  rewrite Hdiv, Hbit. clear Hdiv Hbit. rewrite <- Hm in *. clear Hm.
  destruct rec as [m r s]. simpl in *.
  destruct m as [|[p|p|]|p]; simpl; [| | | |exfalso; lia];
    (split; [|intros _; reflexivity]).
  - reflexivity.
  - rewrite Pos2Z.inj_xI. rewrite Z.mul_comm, Z.div_add_l by lia.
    change (1 / 2) with 0. lia.
  - rewrite Pos2Z.inj_xO. rewrite Z.mul_comm, Z.div_mul by lia. reflexivity.
  - reflexivity.
Qed.

Lemma iter_pos_shifted (M : Z) (p : positive) :
  0 <= M ->
  forall k rec, 0 <= k -> shifted M k rec ->
  shifted M (k + Zpos p) (SpecFloat.iter_pos shr_1 p rec).
Proof.
  intros HM. induction p as [p IH|p IH|]; intros k rec Hk H; simpl.
  - replace (k + Zpos p~1) with (k + 1 + Zpos p + Zpos p) by lia.
    apply IH; [lia|]. apply IH; [lia|]. now apply shr_1_shifted.
  - replace (k + Zpos p~0) with (k + Zpos p + Zpos p) by lia.
    apply IH; [lia|]. now apply IH.
  - now apply shr_1_shifted.
Qed.

Lemma fexp_64 (e : Z) : -1021 <= e -> fexp 53 1024 e = e - 53.
Proof. intros H. unfold fexp, emin. lia. Qed.

Lemma binary_round_aux_renormalise (sx : bool) (mx ex : Z) (lx : location) :
  binary_round_aux 53 1024 sx mx ex lx
  = renormalise sx
      (round_nearest_even (shr_m (fst (shr_fexp 53 1024 mx ex lx)))
         (loc_of_shr_record (fst (shr_fexp 53 1024 mx ex lx))))
      (snd (shr_fexp 53 1024 mx ex lx)).
Proof.
  unfold binary_round_aux, renormalise.
  destruct (shr_fexp 53 1024 mx ex lx) as [mrs e]. reflexivity.
Qed.

(** A mantissa of exactly 53 bits is kept as it is. *)
Lemma renormalise_53 (sx : bool) (m1 : positive) (e : Z) :
  Zpos (digits2_pos m1) = 53 -> -1074 <= e ->
  renormalise sx (Zpos m1) e
  = if e <=? 971 then S754_finite sx m1 e else S754_infinity sx.
Proof.
  intros Hd He. unfold renormalise, shr_fexp. simpl Zdigits2. std_Z.
  rewrite Hd, (fexp_64 (53 + e)) by lia.
  replace (53 + e - 53 - e) with 0 by lia.
  cbn [shr shr_record_of_loc shr_m]. reflexivity.
Qed.

(** A mantissa that rounding carried to [2^53] is renormalised. *)
Lemma renormalise_carry (sx : bool) (e : Z) :
  -1074 <= e ->
  renormalise sx (2 ^ 53) e
  = if e + 1 <=? 971 then S754_finite sx (2 ^ 52) (e + 1) else S754_infinity sx.
Proof.
  intros He. unfold renormalise, shr_fexp.
  change (Zdigits2 (2 ^ 53)) with 54. std_Z.
  rewrite (fexp_64 (54 + e)) by lia. replace (54 + e - 53 - e) with 1 by lia.
  reflexivity.
Qed.

(** Rounding to nearest even moves up by at most one, and from an odd
    mantissa it moves up exactly when the round bit is set. *)
Lemma round_nearest_even_cases (rec : shr_record) :
  let m1 := round_nearest_even (shr_m rec) (loc_of_shr_record rec) in
  (m1 = shr_m rec \/ m1 = shr_m rec + 1) /\
  (Z.odd (shr_m rec) = true -> (m1 = shr_m rec + 1 <-> shr_r rec = true)).
Proof.
  destruct rec as [m r s]. cbn [shr_m shr_r loc_of_shr_record]. std_Z.
  destruct r, s; cbn [round_nearest_even]; std_Z.
  - split; [now right|]. intros _. tauto.
  - rewrite <- Z.negb_odd. destruct (Z.odd m); cbn [negb].
    + split; [now right|]. intros _. tauto.
    + split; [now left|]. discriminate.
  - split; [now left|]. intros _. split; [lia|discriminate].
  - split; [now left|]. intros _. split; [lia|discriminate].
Qed.

(** The top 54 bits of a 1024-bit integer are all ones exactly from
    [2^1024 - 2^970] on. *)
Lemma top_bits_boundary (M : Z) :
  2 ^ 1023 <= M < 2 ^ 1024 ->
  (M / 2 ^ 971 = 2 ^ 53 - 1 /\ Z.testbit M 970 = true)
  <-> 2 ^ 1024 - 2 ^ 970 <= M.
Proof.
  intros HM.
  assert (Hq : M / 2 ^ 971 = M / 2 ^ 970 / 2).
  { change (2 ^ 971) with (2 ^ 970 * 2). now rewrite Z.div_div by lia. }
  rewrite Z.testbit_true by lia. rewrite Hq.
  pose proof (Z.div_mod (M / 2 ^ 970) 2 ltac:(lia)) as Hdm.
  pose proof (Z.mod_pos_bound (M / 2 ^ 970) 2 ltac:(lia)) as Hb.
  assert (Hiff : 2 ^ 1024 - 2 ^ 970 <= M <-> 2 ^ 54 - 1 <= M / 2 ^ 970).
  { split; intros H.
    - apply Z.div_le_lower_bound; [lia|]. vm_compute (2 ^ 970 * (2 ^ 54 - 1)).
      vm_compute (2 ^ 1024 - 2 ^ 970) in H. exact H.
    - pose proof (Z.mul_div_le M (2 ^ 970) ltac:(lia)) as Hle.
      apply Z.le_trans with (2 ^ 970 * (M / 2 ^ 970)); [|exact Hle].
      change (2 ^ 1024 - 2 ^ 970) with (2 ^ 970 * (2 ^ 54 - 1)).
      apply Z.mul_le_mono_nonneg_l; [lia | exact H]. }
  assert (Hup : M / 2 ^ 970 < 2 ^ 54).
  { apply Z.div_lt_upper_bound; [lia|]. change (2 ^ 970 * 2 ^ 54) with (2 ^ 1024). lia. }
  rewrite Hiff. change (2 ^ 53 - 1) with 9007199254740991.
  change (2 ^ 54 - 1) with 18014398509481983.
  change (2 ^ 54) with 18014398509481984 in Hup. lia.
Qed.

(** An integer is finite as a binary64 number exactly below
    [2^1024 - 2^970], the midpoint between the largest finite number and
    [2^1024]. *)
Lemma binary_round_finite (neg : bool) (m : positive) :
  isFinite (binary_round 53 1024 neg m 0) = true
  <-> Zpos m < 2 ^ 1024 - 2 ^ 970.
Proof.
  pose proof (digits2_pos_bounds m) as Hb.
  assert (Hd1 : 1 <= Zpos (digits2_pos m)) by lia.
  unfold binary_round. std_Z. rewrite Z.add_0_r.
  rewrite (fexp_64 (Zpos (digits2_pos m))) by lia.
  unfold shl_align. std_Z.
  set (d := Zpos (digits2_pos m)) in *.
  assert (HT : 2 ^ 53 < 2 ^ 1024 - 2 ^ 970) by (vm_compute; reflexivity).
  destruct (d - 53 - 0) as [|n|k] eqn:Hn.
  - (* 53 bits *)
    rewrite binary_round_aux_renormalise. unfold shr_fexp. cbn [Zdigits2]. std_Z.
    fold d. rewrite (fexp_64 (d + 0)) by lia.
    replace (d + 0 - 53 - 0) with 0 by lia.
    cbn [shr shr_record_of_loc fst snd shr_m loc_of_shr_record round_nearest_even].
    rewrite renormalise_53 by (unfold d in *; lia). cbn.
    replace d with 53 in Hb by lia. split; [lia | reflexivity].
  - (* 54 bits or more: [n] bits are shifted out *)
    rewrite binary_round_aux_renormalise. unfold shr_fexp. cbn [Zdigits2]. std_Z.
    fold d. rewrite (fexp_64 (d + 0)) by lia.
    replace (d + 0 - 53 - 0) with (Zpos n) by lia.
    cbn [shr shr_record_of_loc fst snd]. std_Z. rewrite Z.add_0_l.
    set (rec := SpecFloat.iter_pos shr_1 n _).
    assert (Hrec : shifted (Zpos m) (0 + Zpos n) rec).
    { apply iter_pos_shifted; [lia | lia |]. split; [now rewrite Z.div_1_r | lia]. }
    rewrite Z.add_0_l in Hrec. destruct Hrec as [Hm Hr]. specialize (Hr ltac:(lia)).
    assert (Hd : d = Zpos n + 53) by lia.
    assert (Hq : 2 ^ 52 <= shr_m rec < 2 ^ 53).
    { rewrite Hm. split.
      - apply Z.div_le_lower_bound; [lia|].
        rewrite <- Z.pow_add_r by lia. replace (Zpos n + 52) with (d - 1) by lia. lia.
      - apply Z.div_lt_upper_bound; [lia|].
        rewrite <- Z.pow_add_r by lia. replace (Zpos n + 53) with d by lia. lia. }
    pose proof (round_nearest_even_cases rec) as [Hcase Hodd]. cbv zeta in Hcase, Hodd.
    set (m1 := round_nearest_even (shr_m rec) (loc_of_shr_record rec)) in *.
    destruct (Z_lt_le_dec m1 (2 ^ 53)) as [Hlt|Hge].
    + (* no carry *)
      destruct m1 as [|p1|p1] eqn:Hm1; [lia| |lia].
      rewrite renormalise_53; [| apply digits2_pos_unique; lia | lia].
      destruct (Z.leb_spec (Zpos n) 971) as [Hle|Hgt]; cbn [isFinite].
      * split; [intros _|reflexivity].
        destruct (Z.eq_dec (Zpos n) 971) as [He|He].
        -- destruct (Z_lt_le_dec (Zpos m) (2 ^ 1024 - 2 ^ 970)) as [?|Hbig]; [assumption|].
           exfalso. replace d with 1024 in Hb by lia.
           replace (1024 - 1) with 1023 in Hb by lia.
           apply (top_bits_boundary (Zpos m) Hb) in Hbig as [Htop Hbit].
           rewrite He in Hm, Hr. replace (971 - 1) with 970 in Hr by lia.
           rewrite Htop in Hm.
           assert (Ho : Z.odd (shr_m rec) = true) by (rewrite Hm; reflexivity).
           rewrite Hbit in Hr. apply (proj2 (Hodd Ho)) in Hr.
           rewrite Hm in Hr. vm_compute in Hr. rewrite Hr in Hlt. vm_compute in Hlt. discriminate Hlt.
        -- assert (2 ^ d <= 2 ^ 1023) by (apply Z.pow_le_mono_r; lia).
           assert (2 ^ 1023 < 2 ^ 1024 - 2 ^ 970) by (vm_compute; reflexivity). lia.
      * split; [discriminate|]. intros Hsmall. exfalso.
        assert (2 ^ 1024 <= 2 ^ (d - 1)) by (apply Z.pow_le_mono_r; lia).
        assert (2 ^ 1024 - 2 ^ 970 < 2 ^ 1024) by (vm_compute; reflexivity). lia.
    + (* carry *)
      assert (Hm1 : m1 = 2 ^ 53) by lia.
      assert (Hup : m1 = shr_m rec + 1) by lia.
      rewrite Hm1. rewrite renormalise_carry by lia.
      destruct (Z.leb_spec (Zpos n + 1) 971) as [Hle|Hgt]; cbn [isFinite].
      * split; [intros _|reflexivity].
        assert (2 ^ d <= 2 ^ 1023) by (apply Z.pow_le_mono_r; lia).
        assert (2 ^ 1023 < 2 ^ 1024 - 2 ^ 970) by (vm_compute; reflexivity). lia.
      * split; [discriminate|]. intros Hsmall. exfalso.
        destruct (Z.eq_dec (Zpos n) 971) as [He|He].
        -- replace d with 1024 in Hb by lia.
           replace (1024 - 1) with 1023 in Hb by lia.
           assert (Hq' : shr_m rec = 2 ^ 53 - 1) by lia.
           assert (Ho : Z.odd (shr_m rec) = true) by (rewrite Hq'; reflexivity).
           apply (proj1 (Hodd Ho)) in Hup.
           rewrite Hup in Hr. rewrite He in Hm, Hr. replace (971 - 1) with 970 in Hr by lia.
           rewrite Hq' in Hm.
           assert (Hbig : 2 ^ 1024 - 2 ^ 970 <= Zpos m).
           { apply (top_bits_boundary (Zpos m) Hb). split; [now symmetry | now symmetry]. }
           lia.
        -- assert (2 ^ 1024 <= 2 ^ (d - 1)) by (apply Z.pow_le_mono_r; lia).
           assert (2 ^ 1024 - 2 ^ 970 < 2 ^ 1024) by (vm_compute; reflexivity). lia.
  - (* fewer than 53 bits: the mantissa is shifted left *)
    assert (Hk : Zpos k = 53 - d) by lia.
    rewrite binary_round_aux_renormalise. unfold shr_fexp. cbn [Zdigits2]. std_Z.
    rewrite digits2_pos_shift. fold d. rewrite (fexp_64 (d + Zpos k + (d - 53))) by lia.
    replace (d + Zpos k + (d - 53) - 53 - (d - 53)) with 0 by lia.
    cbn [shr shr_record_of_loc fst snd shr_m loc_of_shr_record round_nearest_even].
    rewrite renormalise_53; [| rewrite digits2_pos_shift; fold d; lia | lia].
    destruct (Z.leb_spec (d - 53) 971) as [Hle|Hgt]; [|lia]. cbn [isFinite].
    split; [intros _|reflexivity].
    assert (2 ^ d <= 2 ^ 53) by (apply Z.pow_le_mono_r; lia). lia.
Qed.

End Binary64.

(** The Number value of an integer is finite exactly below
    [2^1024 - 2^970]. *)
Lemma Number_of_integer_finite (neg : bool) (n : N) :
  isFinite (Number_of_integer neg n) = true <-> n < 2 ^ 1024 - 2 ^ 970.
Proof.
  destruct n as [|p]; simpl.
  - split; [intros _; vm_compute; reflexivity | reflexivity].
  - unfold Number_of_pos, prec64, emax64. rewrite binary_round_finite.
    rewrite N2Z.inj_lt. reflexivity.
Qed.

(** [string_lt] is the lexicographic order on code units: [a] sorts before
    [b] when it is a proper prefix of [b], or when at the first position
    where they differ [a] has the smaller code unit. *)
Lemma string_lt_lexicographic (a b : jsstring) :
  string_lt a b = true <->
  exists p,
    (exists y t, a = p /\ b = p ++ y :: t) \/
    (exists x y s t, a = p ++ x :: s /\ b = p ++ y :: t /\ x < y).
Proof.
  revert b. induction a as [|x a IH]; intros [|y b]; simpl.
  - split; [discriminate|]. intros (p & [(y & t & _ & H)|(x & y & s & t & H & _)]);
      destruct p; discriminate H.
  - split; [|reflexivity]. intros _. exists []. left. now exists y, b.
  - split; [discriminate|].
    intros (p & [(y & t & _ & H)|(x0 & y & s & t & _ & H & _)]);
      destruct p; discriminate H.
  - destruct (N.ltb_spec x y) as [Hxy|Hxy].
    + split; [|reflexivity]. intros _. exists []. right. now exists x, y, a, b.
    + destruct (N.ltb_spec y x) as [Hyx|Hyx].
      * split; [discriminate|].
        intros (p & [(y0 & t & Ha & Hb)|(x0 & y0 & s & t & Ha & Hb & Hlt)]);
          destruct p as [|c p]; simpl in *; try discriminate Ha;
          injection Ha as ? ?; injection Hb as ? ?; subst; lia.
      * assert (x = y) by lia. subst y. rewrite IH. split.
        -- intros (p & [(y0 & t & Ha & Hb)|(x0 & y0 & s & t & Ha & Hb & Hlt)]);
             exists (x :: p); [left | right]; subst.
           ++ now exists y0, t.
           ++ now exists x0, y0, s, t.
        -- intros (p & [(y0 & t & Ha & Hb)|(x0 & y0 & s & t & Ha & Hb & Hlt)]);
             destruct p as [|c p]; simpl in *; try discriminate Ha;
             injection Ha as ? ?; injection Hb as ? ?; subst; try lia;
             exists p; [left | right].
           ++ now exists y0, t.
           ++ now exists x0, y0, s, t.
Qed.

Lemma digit_value_range (radix c d : N) :
  digit_value radix c = Some d -> 48 <= c <= 122.
Proof.
  unfold digit_value.
  destruct ((48 <=? c) && (c <=? 57)) eqn:H1;
    [|destruct ((97 <=? c) && (c <=? 122)) eqn:H2;
      [|destruct ((65 <=? c) && (c <=? 90)) eqn:H3; [|discriminate]]];
    intros _;
    match goal with H : _ && _ = true |- _ =>
      apply andb_true_iff in H as [Ha Hb];
      apply N.leb_le in Ha; apply N.leb_le in Hb; lia
    end.
Qed.

Lemma not_white_space (c : N) : 33 <= c <= 159 -> is_white_space c = false.
Proof.
  intros Hc. unfold is_white_space.
  assert (H1 : (c <=? 13) = false) by (apply N.leb_gt; lia).
  assert (H2 : (8192 <=? c) = false) by (apply N.leb_gt; lia).
  rewrite H1, H2, andb_false_r.
  rewrite !(proj2 (N.eqb_neq c _)) by lia. reflexivity.
Qed.

Lemma digit_not_white_space (radix c : N) :
  is_digit radix c -> is_white_space c = false.
Proof.
  unfold is_digit. destruct (digit_value radix c) as [d|] eqn:Hd; [|congruence].
  intros _. apply digit_value_range in Hd. apply not_white_space. lia.
Qed.


Lemma trim_start_app (ws str : jsstring) :
  Forall (fun c => is_white_space c = true) ws ->
  starts_white str = false ->
  trim_start (ws ++ str) = str.
Proof.
  intros Hws Hstr. induction Hws as [|c ws Hc _ IH]; simpl.
  - destruct str as [|c t]; [reflexivity|]. simpl in *. now rewrite Hstr.
  - now rewrite Hc.
Qed.

Lemma trim_start_split (s : jsstring) :
  exists ws,
    s = ws ++ trim_start s /\
    Forall (fun c => is_white_space c = true) ws /\
    starts_white (trim_start s) = false.
Proof.
  induction s as [|c s (ws & Heq & Hws & Hst)]; simpl.
  - exists []. repeat split. constructor.
  - destruct (is_white_space c) eqn:Hc.
    + exists (c :: ws). simpl. rewrite <- Heq. repeat split; [|exact Hst].
      now constructor.
    + exists []. simpl. repeat split; [constructor | exact Hc].
Qed.

Lemma span_digits_app (radix : N) (cs rest : jsstring) :
  Forall (is_digit radix) cs ->
  no_digit_ahead radix rest ->
  span_digits radix (cs ++ rest) = (map (digit_of radix) cs, rest).
Proof.
  intros Hcs Hrest. induction Hcs as [|c cs Hc _ IH]; simpl.
  - destruct rest as [|c t]; [reflexivity|]. simpl in *. now rewrite Hrest.
  - unfold is_digit in Hc. unfold digit_of.
    destruct (digit_value radix c) as [v|]; [|congruence].
    now rewrite IH.
Qed.

Lemma span_digits_split (radix : N) (s : jsstring) :
  exists cs,
    s = cs ++ snd (span_digits radix s) /\
    fst (span_digits radix s) = map (digit_of radix) cs /\
    Forall (is_digit radix) cs /\
    no_digit_ahead radix (snd (span_digits radix s)).
Proof.
  induction s as [|c s (cs & Heq & Hfst & Hcs & Hrest)]; simpl.
  - exists []. repeat split. constructor.
  - destruct (digit_value radix c) as [v|] eqn:Hv.
    + exists (c :: cs). destruct (span_digits radix s) as [ds rest].
      simpl in *. repeat split.
      * now rewrite <- Heq.
      * unfold digit_of. now rewrite Hv, Hfst.
      * constructor; [|exact Hcs]. unfold is_digit. congruence.
      * exact Hrest.
    + exists []. simpl. repeat split; [constructor | exact Hv].
Qed.

Lemma starts_with_app (p t : jsstring) : starts_with p (p ++ t) = true.
Proof.
  unfold starts_with, string_eqb.
  rewrite firstn_app, Nat.sub_diag, firstn_all. simpl. rewrite app_nil_r.
  now apply bool_decide_eq_true_2.
Qed.

Lemma starts_with_true (p s : jsstring) :
  starts_with p s = true -> s = p ++ skipn (List.length p) s.
Proof.
  unfold starts_with, string_eqb. intros H.
  apply bool_decide_eq_true_1 in H.
  rewrite <- H at 1. symmetry. apply firstn_skipn.
Qed.

Lemma parse_digits_finite (radix : N) (neg : bool) (str : jsstring) :
  isFinite (match fst (span_digits radix str) with
            | [] => S754_nan
            | digits => Number_of_integer neg (digits_value radix digits)
            end) = true <->
  exists digits rest,
    str = digits ++ rest /\ digits <> [] /\
    Forall (is_digit radix) digits /\ no_digit_ahead radix rest /\
    finite_integer radix digits.
Proof.
  unfold finite_integer. split.
  - destruct (span_digits_split radix str) as (cs & Heq & Hfst & Hcs & Hrest).
    rewrite Hfst. intros Hfin.
    exists cs, (snd (span_digits radix str)).
    destruct cs as [|c cs]; [discriminate Hfin|].
    apply Number_of_integer_finite in Hfin.
    repeat split; try assumption. discriminate.
  - intros (digits & rest & -> & Hne & Hds & Hrest & Hfin).
    rewrite (span_digits_app _ _ _ Hds Hrest). simpl.
    destruct digits as [|c cs]; [congruence|].
    now apply Number_of_integer_finite.
Qed.

Lemma parse_unsigned_finite (neg : bool) (str : jsstring) :
  isFinite (parse_unsigned neg str) = true <-> unsigned_integer str.
Proof.
  unfold parse_unsigned, unsigned_integer. cbv zeta.
  destruct (starts_with (js "0x") str) eqn:Hx; [|destruct (starts_with (js "0X") str) eqn:HX];
    cbn [orb]; rewrite parse_digits_finite.
  - apply starts_with_true in Hx. cbn [List.length js map list_ascii_of_string] in Hx.
    split.
    + intros (digits & rest & Heq & H). exists (js "0x"), digits, rest.
      split; [rewrite Hx, Heq; reflexivity|]. split; [tauto|exact H].
    + intros (prefix & digits & rest & Heq & Hp & H).
      destruct Hp as [ [-> Hno] | [ -> | -> ] ].
      * exfalso. apply Hno. exists (skipn 2 str). left. simpl in Heq.
        now rewrite <- Heq.
      * exists digits, rest. split; [|exact H]. rewrite Heq. reflexivity.
      * rewrite Heq in Hx. discriminate Hx.
  - apply starts_with_true in HX. cbn [List.length js map list_ascii_of_string] in HX.
    split.
    + intros (digits & rest & Heq & H). exists (js "0X"), digits, rest.
      split; [rewrite HX, Heq; reflexivity|]. split; [tauto|exact H].
    + intros (prefix & digits & rest & Heq & Hp & H).
      destruct Hp as [ [-> Hno] | [ -> | -> ] ].
      * exfalso. apply Hno. exists (skipn 2 str). right. simpl in Heq.
        now rewrite <- Heq.
      * rewrite Heq in HX. discriminate HX.
      * exists digits, rest. split; [|exact H]. rewrite Heq. reflexivity.
  - split.
    + intros (digits & rest & Heq & H). exists [], digits, rest.
      split; [exact Heq|]. split; [|exact H]. left. split; [reflexivity|].
      intros (t & [Ht|Ht]); rewrite <- Heq in Ht.
      * now rewrite Ht, starts_with_app in Hx.
      * now rewrite Ht, starts_with_app in HX.
    + intros (prefix & digits & rest & Heq & Hp & H).
      destruct Hp as [ [-> Hno] | [ -> | -> ] ].
      * exists digits, rest. split; [exact Heq | exact H].
      * subst str. now rewrite starts_with_app in Hx.
      * subst str. now rewrite starts_with_app in HX.
Qed.

Lemma parseInt_unsigned (s : jsstring) :
  parseInt s =
  parse_unsigned (head_is 45 (trim_start s))
    (if head_is 43 (trim_start s) || head_is 45 (trim_start s)
     then tl (trim_start s) else trim_start s).
Proof. reflexivity. Qed.

Lemma unsigned_integer_head (str : jsstring) :
  unsigned_integer str -> exists c t, str = c :: t /\ 48 <= c <= 122.
Proof.
  intros (prefix & digits & rest & -> & Hp & Hne & Hds & _).
  destruct Hp as [ [-> _] | [ -> | -> ] ].
  - destruct Hds as [|c cs Hc _]; [congruence|].
    exists c, (cs ++ rest). split; [reflexivity|].
    unfold is_digit in Hc.
    destruct (digit_value 10 c) as [v|] eqn:Hv; [|congruence].
    exact (digit_value_range _ _ _ Hv).
  - exists 48, (120 :: digits ++ rest). split; [reflexivity|]. lia.
  - exists 48, (88 :: digits ++ rest). split; [reflexivity|]. lia.
Qed.

Lemma begins_with_integer_signed (cell : jsstring) :
  begins_with_integer cell <->
  exists ws sign str,
    cell = ws ++ sign ++ str /\
    Forall (fun c => is_white_space c = true) ws /\
    (sign = [] \/ sign = js "+" \/ sign = js "-") /\
    unsigned_integer str.
Proof.
  unfold begins_with_integer, unsigned_integer. split.
  - intros (ws & sign & prefix & digits & rest & Heq & Hws & Hs & Hp & H).
    exists ws, sign, (prefix ++ digits ++ rest).
    split; [exact Heq|]. split; [exact Hws|]. split; [exact Hs|].
    exists prefix, digits, rest. split; [reflexivity|]. exact (conj Hp H).
  - intros (ws & sign & str & Heq & Hws & Hs & prefix & digits & rest & -> & Hp & H).
    exists ws, sign, prefix, digits, rest.
    split; [exact Heq|]. split; [exact Hws|]. split; [exact Hs|].
    exact (conj Hp H).
Qed.

(** [parseInt] gives a finite number exactly on the strings described by
    [begins_with_integer]. *)
Lemma parseInt_finite (s : jsstring) :
  isFinite (parseInt s) = true <-> begins_with_integer s.
Proof.
  rewrite begins_with_integer_signed, parseInt_unsigned, parse_unsigned_finite.
  split.
  - destruct (trim_start_split s) as (ws & Heq & Hws & _).
    destruct (trim_start s) as [|c t].
    + intros H. exists ws, [], [].
      split; [exact Heq|]. split; [exact Hws|]. split; [tauto | exact H].
    + simpl. destruct (N.eqb_spec c 43) as [->|H43]; simpl.
      * intros H. exists ws, (js "+"), t.
        split; [exact Heq|]. split; [exact Hws|]. split; [tauto | exact H].
      * destruct (N.eqb_spec c 45) as [->|H45]; simpl.
        -- intros H. exists ws, (js "-"), t.
           split; [exact Heq|]. split; [exact Hws|]. split; [tauto | exact H].
        -- intros H. exists ws, [], (c :: t).
           split; [exact Heq|]. split; [exact Hws|]. split; [tauto | exact H].
  - intros (ws & sign & str & -> & Hws & Hs & Hu).
    destruct (unsigned_integer_head _ Hu) as (c & t & -> & Hc).
    assert (H43 : (c =? 43) = false) by (apply N.eqb_neq; lia).
    assert (H45 : (c =? 45) = false) by (apply N.eqb_neq; lia).
    assert (Hw : is_white_space c = false) by (apply not_white_space; lia).
    destruct Hs as [ -> | [ -> | -> ] ];
      (rewrite trim_start_app; [|exact Hws|]; [|simpl; first [exact Hw | reflexivity]]);
      simpl; rewrite ?H43, ?H45; simpl; exact Hu.
Qed.

Lemma ascii_loop_app (buf : list N) (msgs : list jsstring) :
  ascii_loop buf msgs = msgs ++ ascii_loop buf [].
Proof.
  induction buf as [|b rest IH]; simpl.
  - now rewrite app_nil_r.
  - destruct ((b <? 32) || (126 <? b)); [reflexivity | exact IH].
Qed.

(** The byte loop pushes once if some byte is out of range, and nothing
    otherwise. *)
Lemma ascii_loop_spec (buf : list N) :
  ascii_loop buf [] =
  if existsb (fun b => (b <? 32) || (126 <? b)) buf then [msg_ascii] else [].
Proof.
  induction buf as [|b rest IH]; simpl; [reflexivity|].
  destruct ((b <? 32) || (126 <? b)); [reflexivity | exact IH].
Qed.

Section Stages.

Variables (s : jsstring) (d : ColDef).

Lemma stage_emptiness :
  (if isEmpty d then
     if negb (strict_eq (VString s) []) then push [] msg_isnt_empty else []
   else if noEmpty d then
     if strict_eq (VString s) [] then push [] msg_is_empty else []
   else []) = emptiness_part s d.
Proof.
  unfold emptiness_part; simpl.
  destruct (isEmpty d), (noEmpty d), (string_eqb s []); reflexivity.
Qed.

Lemma stage_ascii (msgs : list jsstring) :
  (if isAscii d then
     let! buf := Buffer_from (VString s) in Ok (ascii_loop buf msgs)
   else Ok msgs)%result = Ok (msgs ++ ascii_part s d).
Proof.
  unfold ascii_part; simpl. destruct (isAscii d).
  - now rewrite ascii_loop_app.
  - now rewrite app_nil_r.
Qed.

Lemma stage_trim (msgs : list jsstring) :
  (if isTrim d then
     let! trimmed := cell_trim (VString s) in
     Ok (if negb (strict_eq (VString s) trimmed) then push msgs msg_trim else msgs)
   else Ok msgs)%result = Ok (msgs ++ trim_part s d).
Proof.
  unfold trim_part; simpl.
  destruct (isTrim d), (string_eqb s (trim s)); simpl;
    now rewrite ?app_nil_r.
Qed.

Lemma stage_regex (msgs : list jsstring) :
  well_formed d ->
  (match regex_source d with
   | Some src =>
       let! re := new_RegExp src in
       Ok (if negb (re (ToString (VString s))) then push msgs msg_regex else msgs)
   | None => Ok msgs
   end)%result = Ok (msgs ++ regex_part s d).
Proof.
  unfold well_formed, regex_part, new_RegExp. intros Hwf.
  destruct (regex_source d) as [src|]; [|now rewrite app_nil_r].
  destruct (RegExp src) as [re|]; [|congruence]. simpl.
  destruct (re s); simpl; now rewrite ?app_nil_r.
Qed.

Lemma stage_int (msgs : list jsstring) :
  (if isInt d then
     if negb (isFinite (parseInt (ToString (VString s))))
     then push msgs msg_int else msgs
   else msgs) = msgs ++ int_part s d.
Proof.
  unfold int_part; simpl.
  destruct (isInt d), (isFinite (parseInt s)); simpl; now rewrite ?app_nil_r.
Qed.

Lemma stage_float (msgs : list jsstring) :
  (if isFloat d then
     if negb (isFinite (parseFloat (ToString (VString s))))
     then push msgs msg_float else msgs
   else msgs) = msgs ++ float_part s d.
Proof.
  unfold float_part; simpl.
  destruct (isFloat d), (isFinite (parseFloat s)); simpl; now rewrite ?app_nil_r.
Qed.

Lemma stage_min (msgs : list jsstring) :
  match minVal d with
  | NumBound b =>
      if negb (number_ge (parseFloat (ToString (VString s))) b)
      then push msgs msg_min_num else msgs
  | StrBound b =>
      if negb (cell_ge_string (VString s) b) then push msgs msg_min_str else msgs
  | NoBound => msgs
  end = msgs ++ min_part s d.
Proof.
  unfold min_part; simpl.
  destruct (minVal d) as [|b|b]; [now rewrite app_nil_r | |].
  - destruct (number_ge (parseFloat s) b); simpl; now rewrite ?app_nil_r.
  - destruct (string_lt s b); simpl; now rewrite ?app_nil_r.
Qed.

Lemma stage_max (msgs : list jsstring) :
  match maxVal d with
  | NumBound b =>
      if negb (number_le (parseFloat (ToString (VString s))) b)
      then push msgs msg_max_num else msgs
  | StrBound b =>
      if negb (cell_le_string (VString s) b) then push msgs msg_max_str else msgs
  | NoBound => msgs
  end = msgs ++ max_part s d.
Proof.
  unfold max_part; simpl.
  destruct (maxVal d) as [|b|b]; [now rewrite app_nil_r | |].
  - destruct (number_le (parseFloat s) b); simpl; now rewrite ?app_nil_r.
  - destruct (string_lt b s); simpl; now rewrite ?app_nil_r.
Qed.

(** On a string cell and a well-formed definition, [checkCell] returns,
    and its messages are the contributions of the eight rules in order. *)
Lemma checkCell_string :
  well_formed d ->
  checkCell (VString s) d = Ok (concat (parts s d)).
Proof.
  intros Hwf. unfold checkCell. cbv zeta.
  rewrite stage_emptiness, stage_ascii. cbn [bindR].
  rewrite stage_trim. cbn [bindR].
  rewrite (stage_regex _ Hwf). cbn [bindR].
  rewrite stage_int, stage_float, stage_min, stage_max.
  unfold parts, concat. now rewrite app_nil_r, <- !app_assoc.
Qed.

Ltac split_part :=
  repeat match goal with
    | |- context [if ?c then _ else _] => destruct c
    | |- context [match ?x with NoBound => _ | _ => _ end] => destruct x
    | |- context [match ?x with Some _ => _ | None => _ end] => destruct x
    end.

Ltac own_message :=
  simpl; intros m Hin;
  repeat match goal with
    | H : _ \/ _ |- _ => destruct H as [H|H]
    | H : False |- _ => destruct H
    | H : _ = m |- _ => subst m; vm_compute; reflexivity
    end.

(** Every rule pushes messages of its own only. *)
Lemma part_owner (k : nat) (p : list jsstring) (m : jsstring) :
  nth_error (parts s d) k = Some p -> In m p -> owner m = k.
Proof.
  unfold parts. intros Hk.
  destruct k as [|[|[|[|[|[|[|[|k]]]]]]]]; simpl in Hk;
    try (injection Hk as <-; revert m).
  - unfold emptiness_part. split_part; own_message.
  - unfold ascii_part. rewrite ascii_loop_spec. split_part; own_message.
  - unfold trim_part. split_part; own_message.
  - unfold regex_part. split_part; own_message.
  - unfold int_part. split_part; own_message.
  - unfold float_part. split_part; own_message.
  - unfold min_part. split_part; own_message.
  - unfold max_part. split_part; own_message.
  - destruct k; discriminate.
Qed.

End Stages.

Lemma occurrences_app (m : jsstring) (l1 l2 : list jsstring) :
  occurrences m (l1 ++ l2) = (occurrences m l1 + occurrences m l2)%nat.
Proof. unfold occurrences. now rewrite filter_app, length_app. Qed.

Lemma occurrences_notin (m : jsstring) (l : list jsstring) :
  ~ In m l -> occurrences m l = 0%nat.
Proof.
  unfold occurrences. induction l as [|x l IH]; simpl; intros Hn; [reflexivity|].
  rewrite filter_cons. destruct (decide (x = m)) as [->|_].
  - exfalso. apply Hn. now left.
  - apply IH. intros H. apply Hn. now right.
Qed.

(** A message occurs among the messages of a cell as often as in the
    contribution of the rule it belongs to. *)
Lemma occurrences_concat (m : jsstring) (ps : list (list jsstring)) (k : nat) :
  (forall j p, nth_error ps j = Some p -> In m p -> j = k) ->
  occurrences m (concat ps) = occurrences m (nth k ps []).
Proof.
  revert k. induction ps as [|p ps IH]; intros k Hown; simpl.
  - now destruct k.
  - rewrite occurrences_app. destruct k as [|k]; simpl.
    + rewrite (occurrences_notin m (concat ps)); [lia|].
      intros Hin. apply in_concat in Hin as (q & Hq & Hm).
      apply In_nth_error in Hq as [j Hj].
      specialize (Hown (S j) q Hj Hm). discriminate.
    + rewrite (occurrences_notin m p).
      * apply IH. intros j q Hj Hm. specialize (Hown (S j) q Hj Hm). lia.
      * intros Hm. specialize (Hown 0%nat p eq_refl Hm). discriminate.
Qed.

Lemma in_concat_owner (m : jsstring) (ps : list (list jsstring)) (k : nat) :
  (forall j p, nth_error ps j = Some p -> In m p -> j = k) ->
  In m (concat ps) <-> In m (nth k ps []).
Proof.
  intros Hown. split.
  - intros Hin. apply in_concat in Hin as (q & Hq & Hm).
    apply In_nth_error in Hq as [j Hj].
    rewrite <- (Hown j q Hj Hm). now rewrite (nth_error_nth _ _ _ Hj).
  - intros Hin. apply in_concat. exists (nth k ps []). split; [|exact Hin].
    destruct (Nat.lt_ge_cases k (List.length ps)) as [Hlt|Hge].
    + now apply nth_In.
    + rewrite nth_overflow in Hin by exact Hge. destruct Hin.
Qed.

Lemma part_owner_at (s : jsstring) (d : ColDef) (m : jsstring) (k : nat) :
  owner m = k ->
  forall j p, nth_error (parts s d) j = Some p -> In m p -> j = k.
Proof. intros <- j p Hj Hm. symmetry. exact (part_owner s d j p m Hj Hm). Qed.


(** [x >= b] fails exactly when [x] is [NaN] or below [b]. *)
Lemma number_ge_false (x b : number) :
  b <> S754_nan ->
  number_ge x b = false <-> x = S754_nan \/ SFltb x b = true.
Proof.
  unfold number_ge, SFltb. intros Hb.
  destruct (SFcompare x b) as [[| |]|] eqn:Hc.
  - split; [discriminate|]. intros [->|H]; [|discriminate H].
    destruct b; discriminate Hc.
  - split; [now right | reflexivity].
  - split; [discriminate|]. intros [->|H]; [|discriminate H].
    destruct b; discriminate Hc.
  - split; [|reflexivity]. intros _. left.
    destruct x as [? |? | |? ? ?]; [| |reflexivity|];
      destruct b as [? |? | |? ? ?]; try congruence; discriminate Hc.
Qed.

(** [x <= b] fails exactly when [x] is [NaN] or above [b]. *)
Lemma number_le_false (x b : number) :
  b <> S754_nan ->
  number_le x b = false <-> x = S754_nan \/ SFltb b x = true.
Proof.
  unfold number_le, SFltb. intros Hb.
  destruct (SFcompare b x) as [[| |]|] eqn:Hc.
  - split; [discriminate|]. intros [->|H]; [|discriminate H].
    destruct b; discriminate Hc.
  - split; [now right | reflexivity].
  - split; [discriminate|]. intros [->|H]; [|discriminate H].
    destruct b; discriminate Hc.
  - split; [|reflexivity]. intros _. left.
    destruct x as [? |? | |? ? ?]; [| |reflexivity|];
      destruct b as [? |? | |? ? ?]; try congruence; discriminate Hc.
Qed.

Lemma in_if_nil (c : bool) (m x : jsstring) :
  In x (if c then [] else [m]) <-> c = false /\ x = m.
Proof. destruct c; simpl; intuition congruence. Qed.

Lemma in_if_one (c : bool) (m x : jsstring) :
  In x (if c then [m] else []) <-> c = true /\ x = m.
Proof. destruct c; simpl; intuition congruence. Qed.

(** ** Properties of the rule engine *)

(** C10. Evaluating any cell against a column definition with every field
    absent returns the empty message sequence: a column without configured
    rules never produces a cell diagnostic. *)
Theorem checkCell_no_rules (cell : cellval) :
  checkCell cell no_rules = Ok [].
Proof. reflexivity. Qed.

(** C7. On every string cell and every well-formed column definition
    [checkCell] returns a message sequence, it does not throw, and that
    sequence is the only result an invocation with this cell and this
    definition has. *)
Theorem checkCell_total_deterministic (s : jsstring) (d : ColDef) :
  well_formed d ->
  exists msgs,
    checkCell (VString s) d = Ok msgs /\
    forall r, checkCell (VString s) d = r -> r = Ok msgs.
Proof.
  intros Hwf. exists (concat (parts s d)).
  rewrite (checkCell_string s d Hwf). split; [reflexivity|].
  intros r <-. reflexivity.
Qed.

(** C4. With [isEmpty] set, the messages of a string cell contain
    "isn't empty when it should be" exactly when the cell is not the empty
    string; and whatever [noEmpty] is, "is empty when it shouldn't be" is
    not among them: the first rule takes precedence. *)
Theorem isEmpty_message_iff (s : jsstring) (d : ColDef) :
  isEmpty d = true ->
  well_formed d ->
  exists msgs,
    checkCell (VString s) d = Ok msgs /\
    (In msg_isnt_empty msgs <-> s <> []) /\
    ~ In msg_is_empty msgs.
Proof.
  intros He Hwf. exists (concat (parts s d)).
  split; [exact (checkCell_string s d Hwf)|].
  rewrite (in_concat_owner msg_isnt_empty (parts s d) 0)
    by (apply part_owner_at; reflexivity).
  rewrite (in_concat_owner msg_is_empty (parts s d) 0)
    by (apply part_owner_at; reflexivity).
  simpl. unfold emptiness_part, string_eqb. rewrite He.
  destruct (decide (s = [])) as [->|Hne];
    [rewrite bool_decide_eq_true_2 by reflexivity
    |rewrite bool_decide_eq_false_2 by exact Hne]; simpl.
  - split; [split; [intros H; destruct H | congruence] | intros H; destruct H].
  - split; [split; [intros _; exact Hne | intros _; now left] |].
    intros [H|H]; [|destruct H]. vm_compute in H. discriminate H.
Qed.

(** C8. With [isAscii] set, the messages of a string cell contain the
    ASCII message once, not once per byte, when some byte of the cell's
    UTF-8 encoding is outside 0x20..0x7E, and do not contain it when every
    byte is inside. *)
Theorem isAscii_message_once (s : jsstring) (d : ColDef) :
  isAscii d = true ->
  well_formed d ->
  exists msgs,
    checkCell (VString s) d = Ok msgs /\
    ((exists b, In b (utf8_encode s) /\ (b < 32 \/ 126 < b)) ->
       occurrences msg_ascii msgs = 1%nat) /\
    ((forall b, In b (utf8_encode s) -> 32 <= b <= 126) ->
       occurrences msg_ascii msgs = 0%nat).
Proof.
  intros Ha Hwf. exists (concat (parts s d)).
  split; [exact (checkCell_string s d Hwf)|].
  rewrite (occurrences_concat msg_ascii (parts s d) 1)
    by (apply part_owner_at; reflexivity).
  simpl. unfold ascii_part. rewrite Ha, ascii_loop_spec.
  destruct (existsb _ (utf8_encode s)) eqn:Hex.
  - split; [reflexivity|]. intros Hall.
    apply existsb_exists in Hex as (b & Hb & Hbad).
    specialize (Hall b Hb).
    apply orb_true_iff in Hbad as [H|H]; apply N.ltb_lt in H; lia.
  - split; [|reflexivity]. intros (b & Hb & Hbad). exfalso.
    assert (Ht : existsb (fun b => (b <? 32) || (126 <? b)) (utf8_encode s) = true).
    { apply existsb_exists. exists b. split; [exact Hb|].
      apply orb_true_iff. destruct Hbad as [H|H]; [left|right]; now apply N.ltb_lt. }
    congruence.
Qed.

(** C3. The bound rules follow the type of the bound. Against a numeric
    [minVal] (resp. [maxVal]) the cell is parsed with [parseFloat] and the
    numeric message is among the messages exactly when the parse gives
    [NaN] or a value below (resp. above) the bound; the string message is
    not. Against a string bound the cell itself is compared, code unit by
    code unit, and the string message is among the messages exactly when
    the cell sorts before (resp. after) the bound; the numeric message is
    not. So [minVal: "b"] gives the message for the cell "a" and none for
    the cell "c". *)
Theorem bounds_type_coherent (s : jsstring) (d : ColDef) :
  well_formed d ->
  exists msgs,
    checkCell (VString s) d = Ok msgs /\
    match minVal d with
    | NumBound b =>
        (b <> S754_nan ->
         (In msg_min_num msgs <->
          parseFloat s = S754_nan \/ SFltb (parseFloat s) b = true)) /\
        ~ In msg_min_str msgs
    | StrBound b =>
        (In msg_min_str msgs <-> string_lt s b = true) /\
        ~ In msg_min_num msgs
    | NoBound => ~ In msg_min_num msgs /\ ~ In msg_min_str msgs
    end /\
    match maxVal d with
    | NumBound b =>
        (b <> S754_nan ->
         (In msg_max_num msgs <->
          parseFloat s = S754_nan \/ SFltb b (parseFloat s) = true)) /\
        ~ In msg_max_str msgs
    | StrBound b =>
        (In msg_max_str msgs <-> string_lt b s = true) /\
        ~ In msg_max_num msgs
    | NoBound => ~ In msg_max_num msgs /\ ~ In msg_max_str msgs
    end /\
    checkCell (VString (js "a")) (minVal_string (js "b")) = Ok [msg_min_str] /\
    checkCell (VString (js "c")) (minVal_string (js "b")) = Ok [].
Proof.
  intros Hwf. exists (concat (parts s d)).
  split; [exact (checkCell_string s d Hwf)|].
  pose proof (in_concat_owner msg_min_num (parts s d) 6
                (part_owner_at s d _ _ eq_refl)) as Hmn.
  pose proof (in_concat_owner msg_min_str (parts s d) 6
                (part_owner_at s d _ _ eq_refl)) as Hms.
  pose proof (in_concat_owner msg_max_num (parts s d) 7
                (part_owner_at s d _ _ eq_refl)) as Hxn.
  pose proof (in_concat_owner msg_max_str (parts s d) 7
                (part_owner_at s d _ _ eq_refl)) as Hxs.
  cbn [nth parts] in Hmn, Hms, Hxn, Hxs. unfold min_part in Hmn, Hms.
  unfold max_part in Hxn, Hxs.
  assert (Hd1 : msg_min_str <> msg_min_num)
    by (intros H; vm_compute in H; discriminate H).
  assert (Hd2 : msg_max_str <> msg_max_num)
    by (intros H; vm_compute in H; discriminate H).
  split; [|split; [|split; reflexivity]].
  - destruct (minVal d) as [|b|b]; rewrite Hmn, Hms; clear Hmn Hms Hxn Hxs.
    + simpl. tauto.
    + rewrite !in_if_nil. split.
      * intros Hb. rewrite <- (number_ge_false _ _ Hb). tauto.
      * intros [_ H]. exact (Hd1 H).
    + rewrite !in_if_one. split; [tauto|].
      intros [_ H]. apply Hd1. now symmetry.
  - destruct (maxVal d) as [|b|b]; rewrite Hxn, Hxs; clear Hmn Hms Hxn Hxs.
    + simpl. tauto.
    + rewrite !in_if_nil. split.
      * intros Hb. rewrite <- (number_le_false _ _ Hb). tauto.
      * intros [_ H]. exact (Hd2 H).
    + rewrite !in_if_one. split; [tauto|].
      intros [_ H]. apply Hd2. now symmetry.
Qed.

(** C2, as the code has it. With [isInt] set, the integer message is
    absent from the messages of a string cell exactly when the cell, after
    leading white space, has an optional sign and then either [0x] or [0X]
    followed by hexadecimal digits, or decimal digits, and the digits, as
    far as they go, denote an integer below [2^1024 - 2^970], which is to
    say one that is finite as a Number. So "42" and "-7x" pass and "abc"
    does not. *)
Theorem isInt_message_iff (s : jsstring) (d : ColDef) :
  isInt d = true ->
  well_formed d ->
  exists msgs,
    checkCell (VString s) d = Ok msgs /\
    (~ In msg_int msgs <-> begins_with_integer s) /\
    checkCell (VString (js "42")) isInt_only = Ok [] /\
    checkCell (VString (js "-7x")) isInt_only = Ok [] /\
    checkCell (VString (js "abc")) isInt_only = Ok [msg_int].
Proof.
  intros Hi Hwf. exists (concat (parts s d)).
  split; [exact (checkCell_string s d Hwf)|].
  split; [|repeat split; vm_compute; reflexivity].
  rewrite (in_concat_owner msg_int (parts s d) 4)
    by (apply part_owner_at; reflexivity).
  cbn [nth parts]. unfold int_part. rewrite Hi, in_if_nil.
  rewrite <- parseInt_finite.
  destruct (isFinite (parseInt s)); intuition congruence.
Qed.

(** ** Lemmas on the loop *)

Lemma append_out_nil (w : World) : append_out w [] = w.
Proof. destruct w. unfold append_out. simpl. now rewrite app_nil_r. Qed.

Lemma append_out_app (w : World) (l1 l2 : list jsstring) :
  append_out (append_out w l1) l2 = append_out w (l1 ++ l2).
Proof. unfold append_out. simpl. now rewrite app_assoc. Qed.

Lemma forEach_write (line : jsstring -> jsstring) (msgs : list jsstring)
    (idx : nat) (w : World) :
  forEach (fun msgmid _ => write (line msgmid)) msgs idx w =
  (Ok tt, append_out w (map line msgs)).
Proof.
  revert idx w. induction msgs as [|x msgs IH]; intros idx w; simpl.
  - unfold ret. now rewrite append_out_nil.
  - unfold bindM. cbn [write]. rewrite IH. f_equal.
    unfold append_out. simpl. now rewrite <- app_assoc.
Qed.

Lemma report_cell_lines (line : jsstring -> jsstring) (cell : cellval)
    (colDef : ColDef) (w : World) :
  report_cell line cell colDef w =
  (snd (report_lines line cell colDef),
   append_out w (fst (report_lines line cell colDef))).
Proof.
  unfold report_cell, report_lines, bindM, lift.
  destruct (checkCell cell colDef) as [msgs|e]; simpl.
  - apply forEach_write.
  - now rewrite append_out_nil.
Qed.

Lemma forEach_lines_spec {A} (f : A -> nat -> M unit)
    (F : A -> nat -> list jsstring * Result unit) (l : list A) :
  (forall x i w, f x i w = (snd (F x i), append_out w (fst (F x i)))) ->
  forall idx w,
    forEach f l idx w =
    (snd (forEach_lines F l idx), append_out w (fst (forEach_lines F l idx))).
Proof.
  intros Hf. induction l as [|x l IH]; intros idx w; simpl.
  - unfold ret. now rewrite append_out_nil.
  - unfold bindM. rewrite Hf. destruct (F x idx) as [ls [[]|e]]; simpl.
    + rewrite IH. destruct (forEach_lines F l (S idx)) as [ls' r]; simpl.
      now rewrite append_out_app.
    + reflexivity.
Qed.

Lemma check_cells_lines {m : Mode} (r : Z) (defs : ColumnDefs m) (rec : Rec m)
    (w : World) :
  check_cells r defs rec w =
  (snd (cells_lines r defs rec), append_out w (fst (cells_lines r defs rec))).
Proof.
  destruct m; simpl; apply forEach_lines_spec; intros; apply report_cell_lines.
Qed.

(** The loop body, case by case. *)
Lemma handle_record_cases {m : Mode} (schema : Schema m) (rec : Rec m) (w : World) :
  handle_record schema rec w =
  let r := (row w + 1)%Z in
  if row_le_skipRows r (skipRows schema) then
    (Ok tt, {| colsShould := colsShould w; row := r; outstream := outstream w |})
  else
    let this := colsThis rec in
    let should := expected w this in
    if isRowBlank rec then
      (Ok tt, {| colsShould := should; row := r;
                 outstream := outstream w ++ [line_blank r] |})
    else
      (snd (cells_lines r (columnDefs schema) rec),
       {| colsShould := should; row := r;
          outstream :=
            outstream w
            ++ (if bool_decide (Some this = should) then []
                else [line_count r should this])
            ++ fst (cells_lines r (columnDefs schema) rec) |}).
Proof.
  unfold handle_record, bindM, incr_row, get, expected. cbn [row colsShould outstream].
  destruct (row_le_skipRows (row w + 1) (skipRows schema)); [reflexivity|].
  cbv zeta.
  destruct (truthy (colsShould w)); cbn [negb ret set_colsShould row colsShould outstream];
    (destruct (isRowBlank rec); [reflexivity|]);
    cbn [row colsShould outstream];
    match goal with |- context [bool_decide ?P] => destruct (bool_decide P) end;
    cbn [negb ret write row colsShould outstream];
    rewrite check_cells_lines; unfold append_out; cbn [row colsShould outstream];
    rewrite ?app_nil_r, <- ?app_assoc; reflexivity.
Qed.

Lemma isRowBlank_blank {m : Mode} (rec : Rec m) :
  isRowBlank rec = true <-> blank rec.
Proof.
  destruct m; simpl in rec |- *.
  - unfold array_get. destruct rec as [|x [|y rec]]; simpl;
      try (split; [discriminate | intros H; discriminate H]).
    unfold string_eqb. rewrite bool_decide_eq_true. split; congruence.
  - unfold Object_keys, object_get. split.
    + intros H. apply andb_true_iff in H as [Hlen H].
      apply Nat.eqb_eq in Hlen. rewrite length_fmap in Hlen.
      destruct (map_to_list rec) as [|[k v] [|? ?]] eqn:Hl; try discriminate Hlen.
      simpl in H.
      assert (Hrec : rec = {[ k := v ]}).
      { rewrite <- (list_to_map_to_list rec), Hl. simpl.
        now rewrite insert_empty. }
      subst rec. rewrite lookup_singleton_eq in H. simpl in H.
      unfold string_eqb in H. apply bool_decide_eq_true in H. subst v.
      now exists k.
    + intros [k ->]. rewrite map_to_list_singleton. simpl.
      now rewrite lookup_singleton_eq.
Qed.

Lemma blank_colsThis {m : Mode} (rec : Rec m) : blank rec -> colsThis rec = 1%Z.
Proof.
  destruct m; simpl.
  - now intros ->.
  - intros [k ->]. unfold Object_keys. now rewrite map_to_list_singleton.
Qed.

Lemma line_blank_not_count (r : Z) (e : option Z) (t : Z) :
  line_blank r <> line_count r e t.
Proof.
  unfold line_blank, line_count. intros H.
  do 2 apply app_inv_head in H. discriminate H.
Qed.

Lemma line_positional_not_count (r : Z) (idx : nat) (msg : jsstring)
    (e : option Z) (t : Z) :
  line_positional r idx msg <> line_count r e t.
Proof.
  unfold line_positional, line_count. intros H.
  do 2 apply app_inv_head in H. discriminate H.
Qed.

Lemma line_named_not_count (r : Z) (key msg : jsstring) (e : option Z) (t : Z) :
  line_named r key msg <> line_count r e t.
Proof.
  unfold line_named, line_count. intros H.
  do 2 apply app_inv_head in H. discriminate H.
Qed.

Lemma forEach_lines_In {A} (F : A -> nat -> list jsstring * Result unit)
    (P : jsstring -> Prop) (l : list A) :
  (forall x i line, In line (fst (F x i)) -> P line) ->
  forall idx line, In line (fst (forEach_lines F l idx)) -> P line.
Proof.
  intros HF. induction l as [|x l IH]; intros idx line; simpl; [intros []|].
  destruct (F x idx) as [ls [[]|e]] eqn:HFx.
  - destruct (forEach_lines F l (S idx)) as [ls' r] eqn:Hl. simpl.
    rewrite in_app_iff. intros [H|H].
    + apply (HF x idx). now rewrite HFx.
    + apply (IH (S idx)). now rewrite Hl.
  - simpl. intros H. apply (HF x idx). now rewrite HFx.
Qed.

Lemma report_lines_In (line : jsstring -> jsstring) (cell : cellval)
    (colDef : ColDef) (l : jsstring) :
  In l (fst (report_lines line cell colDef)) -> exists msg, l = line msg.
Proof.
  unfold report_lines. destruct (checkCell cell colDef) as [msgs|e]; simpl.
  - intros H. apply in_map_iff in H as (msg & <- & _). now exists msg.
  - intros [].
Qed.

(** No line written for the cells of a row is a column count line of
    that row. *)
Lemma cells_lines_not_count {m : Mode} (r : Z) (defs : ColumnDefs m)
    (rec : Rec m) (l : jsstring) :
  In l (fst (cells_lines r defs rec)) -> forall e t, l <> line_count r e t.
Proof.
  destruct m; simpl.
  - apply (forEach_lines_In _ (fun l => forall e t, l <> line_count r e t)).
    intros d i line H e t. apply report_lines_In in H as [msg ->].
    apply line_positional_not_count.
  - apply (forEach_lines_In _ (fun l => forall e t, l <> line_count r e t)).
    intros d i line H e t. apply report_lines_In in H as [msg ->].
    apply line_named_not_count.
Qed.

Lemma forEach_lines_ext {A} (F G : A -> nat -> list jsstring * Result unit)
    (l : list A) (idx : nat) :
  (forall k x, l !! k = Some x -> F x (idx + k)%nat = G x (idx + k)%nat) ->
  forEach_lines F l idx = forEach_lines G l idx.
Proof.
  revert idx. induction l as [|x l IH]; intros idx H; simpl; [reflexivity|].
  pose proof (H 0%nat x eq_refl) as H0. rewrite Nat.add_0_r in H0.
  rewrite H0, (IH (S idx)); [reflexivity|].
  intros k y Hk. specialize (H (S k) y Hk).
  now rewrite Nat.add_succ_r in H.
Qed.

Lemma forEach_lines_ok {A} (F : A -> nat -> list jsstring * Result unit)
    (l : list A) (idx : nat) :
  (forall k x, l !! k = Some x -> snd (F x (idx + k)%nat) = Ok tt) ->
  snd (forEach_lines F l idx) = Ok tt.
Proof.
  revert idx. induction l as [|x l IH]; intros idx H; simpl; [reflexivity|].
  pose proof (H 0%nat x eq_refl) as H0. rewrite Nat.add_0_r in H0.
  destruct (F x idx) as [ls r]. simpl in H0. subst r.
  specialize (IH (S idx)).
  destruct (forEach_lines F l (S idx)) as [ls' r']. simpl in *.
  apply IH. intros k y Hk. specialize (H (S k) y Hk).
  now rewrite Nat.add_succ_r in H.
Qed.

(** Where every configured column has its cell, the cells are checked as
    the specification says. *)
Lemma cells_lines_present {m : Mode} (r : Z) (defs : ColumnDefs m) (rec : Rec m) :
  all_present defs rec ->
  cells_lines r defs rec = spec_cells_lines r defs rec.
Proof.
  destruct m; simpl; intros Hp; apply forEach_lines_ext; intros k x Hk.
  - unfold array_get. simpl.
    apply lookup_lt_Some in Hk.
    destruct (lookup_lt_is_Some_2 rec k) as [c Hc]; [lia|].
    now rewrite Hc.
  - rewrite Forall_forall in Hp.
    assert (Hx : x ∈ defs) by (now apply list_elem_of_lookup_2 in Hk).
    specialize (Hp x Hx). unfold object_get.
    match goal with
    | |- context [match ?o with Some _ => _ | None => _ end] =>
        destruct o; [reflexivity | congruence]
    end.
Qed.

Lemma report_lines_ok (line : jsstring -> jsstring) (cell : option jsstring)
    (colDef : ColDef) :
  well_formed colDef ->
  snd (report_lines line (absent_as_empty cell) colDef) = Ok tt.
Proof.
  intros Hwf. unfold report_lines.
  destruct cell as [c|]; simpl; now rewrite checkCell_string.
Qed.

Lemma spec_cells_lines_ok {m : Mode} (r : Z) (defs : ColumnDefs m) (rec : Rec m) :
  all_well_formed defs ->
  snd (spec_cells_lines r defs rec) = Ok tt.
Proof.
  destruct m; simpl; intros Hwf; apply forEach_lines_ok; intros k x Hk;
    apply report_lines_ok; rewrite Forall_forall in Hwf; apply Hwf;
    now apply list_elem_of_lookup_2 in Hk.
Qed.

(** ** Properties of the loop *)

(** C9. The row counter starts at 0 in positional mode and at 1 in named
    mode, and handling a record adds exactly 1 to it, whether the record
    is skipped, blank, reported or makes a rule throw; so after a run it
    has grown by the number of records handled. *)
Theorem row_counter_increments {m : Mode} (schema : Schema m) :
  row (initial schema) = match m with Positional => 0 | Named => 1 end%Z /\
  (forall (rec : Rec m) (w : World),
      row (snd (handle_record schema rec w)) = (row w + 1)%Z) /\
  (forall (recs : list (Rec m)) (w : World),
      match fst (readable schema recs w) with
      | Ok _ =>
          row (snd (readable schema recs w))
          = (row w + Z.of_nat (List.length recs))%Z
      | Throw _ =>
          (row w < row (snd (readable schema recs w))
                <= row w + Z.of_nat (List.length recs))%Z
      end).
Proof.
  assert (Hstep : forall (rec : Rec m) (w : World),
             row (snd (handle_record schema rec w)) = (row w + 1)%Z).
  { intros rec w. rewrite handle_record_cases. cbv zeta.
    destruct (row_le_skipRows _ _); [reflexivity|].
    destruct (isRowBlank rec); reflexivity. }
  split; [now destruct m|]. split; [exact Hstep|].
  induction recs as [|rec recs IH]; intros w.
  - simpl. lia.
  - cbn [readable]. unfold bindM. specialize (Hstep rec w).
    destruct (handle_record schema rec w) as [[[]|e] w1]; cbn [fst snd] in *.
    + specialize (IH w1). rewrite Hstep in IH.
      destruct (fst (readable schema recs w1));
        rewrite length_cons; lia.
    + rewrite length_cons. lia.
Qed.

(** The first counted record sets the expected column count when none is
    in effect. *)
Lemma colsShould_latch {m : Mode} (schema : Schema m) (rec : Rec m) (w : World) :
  truthy (colsShould w) = false ->
  row_le_skipRows (row w + 1) (skipRows schema) = false ->
  colsShould (snd (handle_record schema rec w)) = Some (colsThis rec).
Proof.
  intros Ht Hs. rewrite handle_record_cases. cbv zeta. rewrite Hs.
  unfold expected. rewrite Ht. destruct (isRowBlank rec); reflexivity.
Qed.

Lemma expected_established (w : World) (n this : Z) :
  colsShould w = Some n -> n <> 0%Z -> expected w this = Some n.
Proof.
  intros Hc Hn. unfold expected, truthy. rewrite Hc.
  now rewrite (proj2 (Z.eqb_neq n 0) Hn).
Qed.

Lemma colsShould_step {m : Mode} (schema : Schema m) (rec : Rec m) (w : World)
    (n : Z) :
  colsShould w = Some n -> n <> 0%Z ->
  colsShould (snd (handle_record schema rec w)) = Some n.
Proof.
  intros Hc Hn. rewrite handle_record_cases. cbv zeta.
  rewrite (expected_established w n _ Hc Hn).
  destruct (row_le_skipRows _ _); [exact Hc|].
  destruct (isRowBlank rec); reflexivity.
Qed.

(** C6, as the code has it. Once [colsShould] holds a count, that is a
    number other than 0, whether it came from the schema or from the first
    counted record, no run changes it, and every later record that is
    counted and not blank is compared against it: the column count line is
    written, with that count as the expected one, exactly when the record
    has another number of fields. *)
Theorem colsShould_fixed {m : Mode} (schema : Schema m) (w : World) (n : Z) :
  colsShould w = Some n ->
  n <> 0%Z ->
  forall (recs : list (Rec m)),
    let w' := snd (readable schema recs w) in
    colsShould w' = Some n /\
    forall (rec : Rec m),
      let r := (row w' + 1)%Z in
      row_le_skipRows r (skipRows schema) = false ->
      isRowBlank rec = false ->
      outstream (snd (handle_record schema rec w'))
      = outstream w'
        ++ (if bool_decide (colsThis rec = n) then []
            else [line_count r (Some n) (colsThis rec)])
        ++ fst (cells_lines r (columnDefs schema) rec) /\
      forall l, In l (fst (cells_lines r (columnDefs schema) rec)) ->
                forall e t, l <> line_count r e t.
Proof.
  intros Hc Hn recs.
  assert (Hinv : colsShould (snd (readable schema recs w)) = Some n).
  { revert w Hc. induction recs as [|rec recs IH]; intros w Hc; [exact Hc|].
    cbn [readable]. unfold bindM.
    pose proof (colsShould_step schema rec w n Hc Hn) as Hstep.
    destruct (handle_record schema rec w) as [[[]|e] w1]; cbn [snd] in *.
    - now apply IH.
    - exact Hstep. }
  cbv zeta. split; [exact Hinv|].
  intros rec Hs Hb. split; [|intros l; apply cells_lines_not_count].
  rewrite handle_record_cases. cbv zeta. rewrite Hs, Hb.
  rewrite (expected_established _ n _ Hinv Hn). cbn [snd outstream].
  destruct (decide (colsThis rec = n)) as [He|He].
  - rewrite !bool_decide_eq_true_2; congruence.
  - rewrite !bool_decide_eq_false_2; congruence.
Qed.

(** C5, as the code has it. For a blank record that is not skipped the
    loop body writes one line, the blank line diagnostic of that row, and
    completes: no column count line and no cell line is written for the
    row. *)
Theorem blank_record_one_line {m : Mode} (schema : Schema m) (rec : Rec m)
    (w : World) :
  blank rec ->
  row_le_skipRows (row w + 1) (skipRows schema) = false ->
  let r := (row w + 1)%Z in
  handle_record schema rec w
  = (Ok tt, {| colsShould := expected w 1; row := r;
               outstream := outstream w ++ [line_blank r] |}) /\
  (forall e t, line_blank r <> line_count r e t) /\
  (forall idx msg, line_blank r <> line_positional r idx msg) /\
  (forall key msg, line_blank r <> line_named r key msg).
Proof.
  intros Hb Hs. cbv zeta. split; [|split; [|split]].
  - rewrite handle_record_cases. cbv zeta. rewrite Hs.
    rewrite (proj2 (isRowBlank_blank rec) Hb).
    now rewrite (blank_colsThis rec Hb).
  - intros e t. apply line_blank_not_count.
  - intros idx msg H. unfold line_blank, line_positional in H.
    do 2 apply app_inv_head in H. discriminate H.
  - intros key msg H. unfold line_blank, line_named in H.
    do 2 apply app_inv_head in H. discriminate H.
Qed.

(** For a record that is not skipped, not blank and whose number of
    fields differs from the expected column count, the loop body writes
    one column count line, with the expected and the found count, and
    after it only the lines of the cells; and when the record holds a cell
    for every configured column and the column definitions are well
    formed, the rule engine is run on every configured column, in order,
    and the body completes. *)
Theorem count_mismatch_one_line {m : Mode} (schema : Schema m) (rec : Rec m)
    (w : World) :
  let r := (row w + 1)%Z in
  let this := colsThis rec in
  row_le_skipRows r (skipRows schema) = false ->
  ~ blank rec ->
  Some this <> expected w this ->
  (outstream (snd (handle_record schema rec w))
   = outstream w ++ line_count r (expected w this) this
                 :: fst (cells_lines r (columnDefs schema) rec) /\
   forall l, In l (fst (cells_lines r (columnDefs schema) rec)) ->
             forall e t, l <> line_count r e t) /\
  (all_present (columnDefs schema) rec ->
   all_well_formed (columnDefs schema) ->
   handle_record schema rec w
   = (Ok tt,
      {| colsShould := expected w this; row := r;
         outstream :=
           outstream w ++ line_count r (expected w this) this
                       :: fst (spec_cells_lines r (columnDefs schema) rec) |})).
Proof.
  cbv zeta. intros Hs Hb Hne.
  assert (Hb' : isRowBlank rec = false).
  { destruct (isRowBlank rec) eqn:E; [|reflexivity].
    exfalso. apply Hb. now apply isRowBlank_blank. }
  rewrite handle_record_cases. cbv zeta. rewrite Hs, Hb'.
  rewrite bool_decide_eq_false_2 by exact Hne. cbn [snd outstream app].
  split; [split; [reflexivity | intros l; apply cells_lines_not_count]|].
  intros Hp Hwf. rewrite (cells_lines_present _ _ _ Hp).
  now rewrite (spec_cells_lines_ok _ _ rec Hwf).
Qed.

(** ** Further lemmas on strings and numbers *)

Lemma string_lt_irrefl (s : jsstring) : string_lt s s = false.
Proof.
  induction s as [|x s IH]; simpl; [reflexivity|].
  now rewrite N.ltb_irrefl.
Qed.

Lemma string_lt_connected (a b : jsstring) :
  string_lt a b = false -> string_lt b a = false -> a = b.
Proof.
  revert b. induction a as [|x a IH]; intros [|y b]; simpl; try discriminate;
    [reflexivity|].
  destruct (N.ltb_spec x y) as [Hxy|Hxy]; [discriminate|].
  destruct (N.ltb_spec y x) as [Hyx|Hyx]; [discriminate|].
  intros H1 H2. assert (x = y) by lia. subst y. f_equal. now apply IH.
Qed.

(** [a >= b] and [b >= c] give [a >= c]. *)
Lemma string_ge_trans (a b c : jsstring) :
  string_lt a b = false -> string_lt b c = false -> string_lt a c = false.
Proof.
  revert b c. induction a as [|x a IH]; intros b c Hab Hbc.
  - destruct b as [|y b]; [exact Hbc | discriminate Hab].
  - destruct c as [|z c]; [reflexivity|].
    destruct b as [|y b]; [discriminate Hbc|].
    simpl in *.
    destruct (N.ltb_spec x y) as [Hxy|Hxy]; [discriminate|].
    destruct (N.ltb_spec y z) as [Hyz|Hyz]; [discriminate|].
    destruct (N.ltb_spec x z) as [Hxz|Hxz]; [lia|].
    destruct (N.ltb_spec z x) as [Hzx|Hzx]; [reflexivity|].
    destruct (N.ltb_spec y x) as [Hyx|Hyx]; [lia|].
    destruct (N.ltb_spec z y) as [Hzy|Hzy]; [lia|].
    now apply (IH b c).
Qed.

(** Comparing the other way round gives the opposite answer. *)
Lemma SFcompare_antisym (x y : number) :
  SFcompare y x = option_map CompOpp (SFcompare x y).
Proof.
  destruct x as [sx|sx| |sx mx ex], y as [sy|sy| |sy my ey]; simpl;
    try reflexivity;
    try (destruct sx; reflexivity); try (destruct sy; reflexivity);
    try (destruct sx, sy; reflexivity).
  destruct sx, sy; simpl; try reflexivity;
    rewrite (Z.compare_antisym ex ey);
    destruct (Z.compare ex ey) eqn:He; simpl; try reflexivity;
    rewrite (Pos.compare_cont_antisym mx my Eq); simpl;
    destruct (Pos.compare_cont Eq mx my); reflexivity.
Qed.

(** ** Further lemmas on [trim] *)

Lemma trim_start_id (s : jsstring) : starts_white s = false -> trim_start s = s.
Proof. destruct s as [|c s]; simpl; [reflexivity|]. now intros ->. Qed.

Lemma trim_start_length (s : jsstring) :
  (List.length (trim_start s) <= List.length s)%nat.
Proof.
  induction s as [|c s IH]; simpl; [lia|].
  destruct (is_white_space c); simpl; lia.
Qed.

Lemma trim_start_shorter (s : jsstring) :
  starts_white s = true ->
  (List.length (trim_start s) < List.length s)%nat.
Proof.
  destruct s as [|c s]; simpl; [discriminate|]. intros ->.
  pose proof (trim_start_length s). lia.
Qed.

(** [trim] leaves exactly the strings alone that neither start nor end
    with white space. *)
Lemma trim_fixpoint (s : jsstring) :
  trim s = s <-> starts_white s = false /\ ends_white s = false.
Proof.
  unfold trim, trim_end, ends_white. split.
  - intros H.
    assert (Hlen : List.length (trim_start (rev (trim_start s))) = List.length s).
    { rewrite <- H at 2. now rewrite length_rev. }
    pose proof (trim_start_length s) as H1.
    pose proof (trim_start_length (rev (trim_start s))) as H2.
    rewrite length_rev in H2.
    destruct (starts_white s) eqn:Hs.
    + apply trim_start_shorter in Hs. lia.
    + split; [reflexivity|]. rewrite (trim_start_id s Hs) in *.
      destruct (starts_white (rev s)) eqn:He; [|reflexivity].
      apply trim_start_shorter in He. rewrite length_rev in He. lia.
  - intros [Hs He]. rewrite (trim_start_id s Hs), (trim_start_id _ He).
    apply rev_involutive.
Qed.

(** ** Further lemmas on the UTF-8 encoding *)

Lemma high_bit_lower_bound (x : N) : N.testbit x 7 = true -> 128 <= x.
Proof.
  intros H. destruct (N.lt_ge_cases x 128) as [Hlt|Hge]; [|exact Hge].
  exfalso. destruct (N.eq_dec x 0) as [->|Hx]; [discriminate H|].
  rewrite N.bits_above_log2 in H; [discriminate H|].
  apply N.log2_lt_pow2; [lia | exact Hlt].
Qed.

Lemma lor_high_bit (a b : N) : N.testbit a 7 = true -> 128 <= N.lor a b.
Proof.
  intros H. apply high_bit_lower_bound. now rewrite N.lor_spec, H.
Qed.

(** A code point from 128 on is encoded with a first byte from 128 on. *)
Lemma utf8_of_code_point_high (cp : N) :
  128 <= cp -> exists b bs, utf8_of_code_point cp = b :: bs /\ 128 <= b.
Proof.
  intros H. unfold utf8_of_code_point.
  destruct (N.ltb_spec cp 128) as [?|_]; [lia|].
  destruct (cp <? 2048); [|destruct (cp <? 65536)];
    eexists _, _; (split; [reflexivity|]); now apply lor_high_bit.
Qed.

Lemma not_printable_high (c : N) : 128 <= c -> not_printable c = true.
Proof.
  intros H. unfold not_printable.
  destruct (N.ltb_spec 126 c) as [_|?]; [apply orb_true_r | lia].
Qed.

Lemma existsb_utf8_high (cp : N) (rest : list N) :
  128 <= cp ->
  existsb not_printable (utf8_of_code_point cp ++ rest) = true.
Proof.
  intros H. destruct (utf8_of_code_point_high cp H) as (b & bs & -> & Hb).
  simpl. now rewrite (not_printable_high b Hb).
Qed.

(** The bytes of a string have one outside [0x20..0x7E] exactly when its
    code units have. *)
Lemma utf8_encode_not_printable (s : jsstring) :
  existsb not_printable (utf8_encode s) = existsb not_printable s.
Proof.
  unfold utf8_encode. induction s as [|c s IH]; [reflexivity|].
  cbn [code_points existsb].
  destruct (is_high_surrogate c) eqn:Hh.
  - assert (Hc : 128 <= c).
    { unfold is_high_surrogate in Hh. apply andb_true_iff in Hh as [Hh _].
      apply N.leb_le in Hh. lia. }
    rewrite (not_printable_high c Hc). cbn [orb].
    destruct s as [|d s']; [reflexivity|].
    destruct (is_low_surrogate d); cbn [flat_map];
      apply existsb_utf8_high; lia.
  - destruct (is_low_surrogate c) eqn:Hl.
    + assert (Hc : 128 <= c).
      { unfold is_low_surrogate in Hl. apply andb_true_iff in Hl as [Hl _].
        apply N.leb_le in Hl. lia. }
      rewrite (not_printable_high c Hc). cbn [orb flat_map].
      apply existsb_utf8_high; lia.
    + cbn [flat_map]. destruct (N.lt_ge_cases c 128) as [Hlt|Hge].
      * unfold utf8_of_code_point at 1.
        rewrite (proj2 (N.ltb_lt c 128) Hlt). cbn [app existsb].
        now rewrite IH.
      * rewrite (not_printable_high c Hge). cbn [orb].
        now apply existsb_utf8_high.
Qed.

(** ** Further properties of the rule engine *)

(** X1. With [isTrim] set, the white space message is among the messages
    of a string cell exactly when the cell starts or ends with a white
    space code unit. *)
Theorem isTrim_message_iff (s : jsstring) (d : ColDef) :
  isTrim d = true ->
  well_formed d ->
  exists msgs,
    checkCell (VString s) d = Ok msgs /\
    (In msg_trim msgs <-> starts_white s = true \/ ends_white s = true).
Proof.
  intros Ht Hwf. exists (concat (parts s d)).
  split; [exact (checkCell_string s d Hwf)|].
  rewrite (in_concat_owner msg_trim (parts s d) 2)
    by (apply part_owner_at; reflexivity).
  cbn [nth parts]. unfold trim_part, string_eqb. rewrite Ht, in_if_nil.
  pose proof (trim_fixpoint s) as Hfix.
  destruct (decide (s = trim s)) as [He|He].
  - rewrite bool_decide_eq_true_2 by exact He.
    symmetry in He. apply Hfix in He as [-> ->].
    split; [intros [H _]; discriminate H | intros [H|H]; discriminate H].
  - rewrite bool_decide_eq_false_2 by exact He.
    split; [intros _|intros _; now split].
    destruct (starts_white s) eqn:Hs; [now left|].
    destruct (ends_white s) eqn:Hend; [now right|].
    exfalso. apply He. symmetry. now apply Hfix.
Qed.

(** X2. With [isAscii] set, the ASCII message is among the messages of a
    string cell exactly when one of the cell's code units is outside
    0x20..0x7E: the test on the bytes of the UTF-8 encoding is a test on
    the characters. *)
Theorem isAscii_message_code_units (s : jsstring) (d : ColDef) :
  isAscii d = true ->
  well_formed d ->
  exists msgs,
    checkCell (VString s) d = Ok msgs /\
    (In msg_ascii msgs <-> exists c, In c s /\ (c < 32 \/ 126 < c)).
Proof.
  intros Ha Hwf. exists (concat (parts s d)).
  split; [exact (checkCell_string s d Hwf)|].
  rewrite (in_concat_owner msg_ascii (parts s d) 1)
    by (apply part_owner_at; reflexivity).
  cbn [nth parts]. unfold ascii_part. rewrite Ha, ascii_loop_spec.
  change (fun b => (b <? 32) || (126 <? b)) with not_printable.
  rewrite utf8_encode_not_printable, in_if_one.
  rewrite existsb_exists. unfold not_printable. split.
  - intros [(c & Hc & Hbad) _]. exists c. split; [exact Hc|].
    apply orb_true_iff in Hbad as [H|H]; apply N.ltb_lt in H; tauto.
  - intros (c & Hc & Hbad). split; [|reflexivity]. exists c.
    split; [exact Hc|]. apply orb_true_iff.
    destruct Hbad as [H|H]; [left|right]; now apply N.ltb_lt.
Qed.

(** X3. With [noEmpty] set and [isEmpty] not, the messages of a string
    cell contain "is empty when it shouldn't be" exactly when the cell is
    the empty string, and never "isn't empty when it should be". *)
Theorem noEmpty_message_iff (s : jsstring) (d : ColDef) :
  isEmpty d = false ->
  noEmpty d = true ->
  well_formed d ->
  exists msgs,
    checkCell (VString s) d = Ok msgs /\
    (In msg_is_empty msgs <-> s = []) /\
    ~ In msg_isnt_empty msgs.
Proof.
  intros He Hn Hwf. exists (concat (parts s d)).
  split; [exact (checkCell_string s d Hwf)|].
  rewrite (in_concat_owner msg_isnt_empty (parts s d) 0)
    by (apply part_owner_at; reflexivity).
  rewrite (in_concat_owner msg_is_empty (parts s d) 0)
    by (apply part_owner_at; reflexivity).
  cbn [nth parts]. unfold emptiness_part, string_eqb. rewrite He, Hn.
  destruct (decide (s = [])) as [->|Hne];
    [rewrite bool_decide_eq_true_2 by reflexivity
    |rewrite bool_decide_eq_false_2 by exact Hne]; simpl.
  - split; [split; [reflexivity | intros _; now left]|].
    intros [H|H]; [|destruct H]. vm_compute in H. discriminate H.
  - split; [split; [intros H; destruct H | intros H; now destruct Hne]|].
    intros H; destruct H.
Qed.

(** X4. The pattern rule on a string cell: a pattern that compiles gives
    the message exactly when its [test] fails on the cell; a pattern that
    does not compile makes [checkCell] throw a [SyntaxError], whatever the
    other rules found. *)
Theorem regex_rule (s : jsstring) (d : ColDef) (src : jsstring) :
  regex_source d = Some src ->
  match RegExp src with
  | Some re =>
      exists msgs,
        checkCell (VString s) d = Ok msgs /\
        (In msg_regex msgs <-> re s = false)
  | None => checkCell (VString s) d = Throw SyntaxError
  end.
Proof.
  intros Hsrc. destruct (RegExp src) as [re|] eqn:Hre.
  - assert (Hwf : well_formed d).
    { unfold well_formed. rewrite Hsrc. congruence. }
    exists (concat (parts s d)).
    split; [exact (checkCell_string s d Hwf)|].
    rewrite (in_concat_owner msg_regex (parts s d) 3)
      by (apply part_owner_at; reflexivity).
    cbn [nth parts]. unfold regex_part. rewrite Hsrc, Hre, in_if_nil. tauto.
  - unfold checkCell. cbv zeta.
    rewrite stage_emptiness, stage_ascii. cbn [bindR].
    rewrite stage_trim. cbn [bindR].
    rewrite Hsrc. unfold new_RegExp. rewrite Hre. reflexivity.
Qed.

Ltac case_rules :=
  repeat match goal with
    | |- context [if ?c then _ else _] => destruct c
    | |- context [match ?x with NoBound => _ | _ => _ end] => destruct x
    | |- context [match ?x with Some _ => _ | None => _ end] => destruct x
    end.

Lemma part_sublists (s : jsstring) (d : ColDef) :
  sublist (emptiness_part s d) [msg_isnt_empty; msg_is_empty] /\
  sublist (ascii_part s d) [msg_ascii] /\
  sublist (trim_part s d) [msg_trim] /\
  sublist (regex_part s d) [msg_regex] /\
  sublist (int_part s d) [msg_int] /\
  sublist (float_part s d) [msg_float] /\
  sublist (min_part s d) [msg_min_num; msg_min_str] /\
  sublist (max_part s d) [msg_max_num; msg_max_str].
Proof.
  unfold emptiness_part, ascii_part, trim_part, regex_part, int_part,
    float_part, min_part, max_part.
  rewrite ascii_loop_spec.
  repeat split; case_rules;
    repeat first [apply sublist_nil | apply sublist_skip | apply sublist_cons].
Qed.

Lemma part_lengths (s : jsstring) (d : ColDef) :
  Forall (fun p : list jsstring => (List.length p <= 1)%nat) (parts s d).
Proof.
  unfold parts, emptiness_part, ascii_part, trim_part, regex_part, int_part,
    float_part, min_part, max_part.
  rewrite ascii_loop_spec.
  repeat (constructor; [case_rules; simpl; lia|]). constructor.
Qed.

Lemma concat_length_bound (ps : list (list jsstring)) :
  Forall (fun p : list jsstring => (List.length p <= 1)%nat) ps ->
  (List.length (concat ps) <= List.length ps)%nat.
Proof.
  induction 1 as [|p ps Hp _ IH]; simpl; [lia|].
  rewrite length_app. lia.
Qed.

Lemma rule_order_NoDup : NoDup rule_order.
Proof. apply (bool_decide_unpack _). vm_compute. reflexivity. Qed.

(** X5. The messages of a string cell come in the order of the rules,
    none of them twice, and there are at most eight of them. *)
Theorem messages_in_rule_order (s : jsstring) (d : ColDef) :
  well_formed d ->
  exists msgs,
    checkCell (VString s) d = Ok msgs /\
    sublist msgs rule_order /\
    NoDup msgs /\
    (List.length msgs <= 8)%nat.
Proof.
  intros Hwf. exists (concat (parts s d)).
  split; [exact (checkCell_string s d Hwf)|].
  assert (Hsub : sublist (concat (parts s d)) rule_order).
  { destruct (part_sublists s d) as (H1 & H2 & H3 & H4 & H5 & H6 & H7 & H8).
    unfold parts, concat. rewrite app_nil_r.
    change rule_order with
      ([msg_isnt_empty; msg_is_empty] ++ [msg_ascii] ++ [msg_trim]
         ++ [msg_regex] ++ [msg_int] ++ [msg_float]
         ++ [msg_min_num; msg_min_str] ++ [msg_max_num; msg_max_str]).
    repeat (apply sublist_app; [assumption|]). assumption. }
  split; [exact Hsub|]. split.
  - exact (sublist_NoDup _ _ rule_order_NoDup Hsub).
  - exact (concat_length_bound _ (part_lengths s d)).
Qed.

Lemma parseInt_undefined : parseInt (js "undefined") = S754_nan.
Proof. vm_compute. reflexivity. Qed.

Lemma parseFloat_undefined : parseFloat (js "undefined") = S754_nan.
Proof. vm_compute. reflexivity. Qed.

(** X6. On an absent cell, which reaches [checkCell] as [undefined], the
    call throws a [TypeError] exactly when the column has [isAscii] or
    [isTrim] set. *)
Theorem checkCell_undefined_TypeError (d : ColDef) :
  checkCell VUndefined d = Throw TypeError
  <-> isAscii d = true \/ isTrim d = true.
Proof.
  unfold checkCell. cbv zeta.
  destruct (isAscii d); cbn [Buffer_from bindR].
  - split; [intros _; now left | reflexivity].
  - destruct (isTrim d); cbn [cell_trim bindR].
    + split; [intros _; now right | reflexivity].
    + split; [|intros [H|H]; discriminate H].
      unfold new_RegExp.
      destruct (regex_source d) as [src|]; [destruct (RegExp src)|];
        cbn [bindR]; discriminate.
Qed.

Lemma number_ge_nan (b : number) : number_ge S754_nan b = false.
Proof. reflexivity. Qed.

Lemma number_le_nan (b : number) : number_le S754_nan b = false.
Proof. unfold number_le. now destruct b. Qed.

(** On an absent cell [checkCell] returns, when no rule throws, the
    contributions listed in [absent_parts]. *)
Lemma checkCell_undefined (d : ColDef) :
  isAscii d = false ->
  isTrim d = false ->
  well_formed d ->
  checkCell VUndefined d = Ok (concat (absent_parts d)).
Proof.
  intros Ha Ht Hwf. unfold checkCell. cbv zeta. rewrite Ha, Ht.
  cbn [bindR strict_eq negb cell_ge_string cell_le_string].
  change (ToString VUndefined) with (ToString (VString (js "undefined"))).
  rewrite (stage_regex (js "undefined") d _ Hwf). cbn [bindR].
  rewrite stage_int, stage_float.
  unfold int_part, float_part. cbn [ToString].
  rewrite parseInt_undefined, parseFloat_undefined.
  cbn [isFinite negb].
  unfold absent_parts, concat, push. rewrite app_nil_r.
  destruct (isEmpty d), (noEmpty d), (minVal d), (maxVal d);
    rewrite ?number_ge_nan, ?number_le_nan;
    cbn [app negb]; rewrite <- ?app_assoc; cbn [app]; rewrite ?app_nil_r;
    reflexivity.
Qed.

(** X7. On an absent cell, when neither [isAscii] nor [isTrim] is set and
    the pattern compiles, [checkCell] returns, and the absent cell fails
    [isEmpty], [isInt], [isFloat] and every bound, numeric or string, but
    is not reported by [noEmpty]. *)
Theorem checkCell_undefined_messages (d : ColDef) :
  isAscii d = false ->
  isTrim d = false ->
  well_formed d ->
  exists msgs,
    checkCell VUndefined d = Ok msgs /\
    (isEmpty d = true -> In msg_isnt_empty msgs) /\
    ~ In msg_is_empty msgs /\
    (isInt d = true -> In msg_int msgs) /\
    (isFloat d = true -> In msg_float msgs) /\
    (minVal d <> NoBound -> In msg_min_num msgs \/ In msg_min_str msgs) /\
    (maxVal d <> NoBound -> In msg_max_num msgs \/ In msg_max_str msgs).
Proof.
  intros Ha Ht Hwf. exists (concat (absent_parts d)).
  split; [exact (checkCell_undefined d Ha Ht Hwf)|].
  unfold absent_parts, concat. rewrite app_nil_r. rewrite !in_app_iff.
  repeat split.
  - intros ->. left. now left.
  - unfold regex_part.
    intros [H|[H|[H|[H|[H|H]]]]]; revert H; case_rules; simpl;
      intros H; repeat (destruct H as [H|H]; [vm_compute in H; discriminate H|]);
      exact H.
  - intros ->. right. right. left. now left.
  - intros ->. right. right. right. left. now left.
  - intros Hb. destruct (minVal d); [congruence| |].
    + left. do 4 right. left. now left.
    + right. do 4 right. left. now left.
  - intros Hb. destruct (maxVal d); [congruence| |].
    + left. do 5 right. now left.
    + right. do 5 right. now left.
Qed.

Lemma bound_messages (s : jsstring) (d : ColDef) :
  (In msg_min_num (concat (parts s d)) <-> In msg_min_num (min_part s d)) /\
  (In msg_min_str (concat (parts s d)) <-> In msg_min_str (min_part s d)) /\
  (In msg_max_num (concat (parts s d)) <-> In msg_max_num (max_part s d)) /\
  (In msg_max_str (concat (parts s d)) <-> In msg_max_str (max_part s d)).
Proof.
  repeat split;
    first [ apply (in_concat_owner _ (parts s d) 6)
          | apply (in_concat_owner _ (parts s d) 7) ];
    apply part_owner_at; reflexivity.
Qed.

(** X8. String bounds are inclusive and the order is total: with the
    same string as [minVal] and as [maxVal], the cells that draw neither
    bound message are exactly those equal to that string. *)
Theorem string_bounds_point (s b : jsstring) (d : ColDef) :
  minVal d = StrBound b ->
  maxVal d = StrBound b ->
  well_formed d ->
  exists msgs,
    checkCell (VString s) d = Ok msgs /\
    (~ In msg_min_str msgs /\ ~ In msg_max_str msgs <-> s = b).
Proof.
  intros Hmin Hmax Hwf. exists (concat (parts s d)).
  split; [exact (checkCell_string s d Hwf)|].
  destruct (bound_messages s d) as (_ & -> & _ & ->).
  unfold min_part, max_part. rewrite Hmin, Hmax, !in_if_one. split.
  - intros [H1 H2]. apply string_lt_connected.
    + destruct (string_lt s b); [exfalso; now apply H1 | reflexivity].
    + destruct (string_lt b s); [exfalso; now apply H2 | reflexivity].
  - intros ->. rewrite string_lt_irrefl.
    split; intros [H _]; discriminate H.
Qed.

(** X9. When the string [maxVal] sorts before the string [minVal], no
    cell satisfies both: every cell draws a bound message. *)
Theorem string_bounds_empty_range (s lo hi : jsstring) (d : ColDef) :
  minVal d = StrBound lo ->
  maxVal d = StrBound hi ->
  string_lt hi lo = true ->
  well_formed d ->
  exists msgs,
    checkCell (VString s) d = Ok msgs /\
    (In msg_min_str msgs \/ In msg_max_str msgs).
Proof.
  intros Hmin Hmax Hlt Hwf. exists (concat (parts s d)).
  split; [exact (checkCell_string s d Hwf)|].
  destruct (bound_messages s d) as (_ & -> & _ & ->).
  unfold min_part, max_part. rewrite Hmin, Hmax, !in_if_one.
  destruct (string_lt s lo) eqn:H1; [now left|].
  destruct (string_lt hi s) eqn:H2; [now right|].
  rewrite (string_ge_trans hi s lo H2 H1) in Hlt. discriminate Hlt.
Qed.

(** X10. Numeric bounds are inclusive: with the same number as [minVal]
    and as [maxVal], the cells that draw neither bound message are exactly
    those whose [parseFloat] value equals that number ([-0] equal to
    [0]). *)
Theorem numeric_bounds_point (s : jsstring) (b : number) (d : ColDef) :
  minVal d = NumBound b ->
  maxVal d = NumBound b ->
  well_formed d ->
  exists msgs,
    checkCell (VString s) d = Ok msgs /\
    (~ In msg_min_num msgs /\ ~ In msg_max_num msgs
     <-> SFeqb (parseFloat s) b = true).
Proof.
  intros Hmin Hmax Hwf. exists (concat (parts s d)).
  split; [exact (checkCell_string s d Hwf)|].
  destruct (bound_messages s d) as (-> & _ & -> & _).
  unfold min_part, max_part. rewrite Hmin, Hmax, !in_if_nil.
  unfold number_ge, number_le, SFeqb.
  rewrite (SFcompare_antisym (parseFloat s) b).
  destruct (SFcompare (parseFloat s) b) as [[| |]|]; simpl;
    intuition congruence.
Qed.

(** X11. The empty cell: it passes [isAscii], [isTrim] and any string
    [maxVal], and fails [isInt], [isFloat] and any numeric bound; a string
    [minVal] rejects it unless that bound is the empty string too. *)
Theorem empty_cell_rules (d : ColDef) :
  well_formed d ->
  exists msgs,
    checkCell (VString []) d = Ok msgs /\
    ~ In msg_ascii msgs /\
    ~ In msg_trim msgs /\
    ~ In msg_max_str msgs /\
    (isInt d = true -> In msg_int msgs) /\
    (isFloat d = true -> In msg_float msgs) /\
    (forall b, minVal d = NumBound b -> In msg_min_num msgs) /\
    (forall b, maxVal d = NumBound b -> In msg_max_num msgs) /\
    (forall b, minVal d = StrBound b -> (In msg_min_str msgs <-> b <> [])).
Proof.
  intros Hwf. exists (concat (parts [] d)).
  split; [exact (checkCell_string [] d Hwf)|].
  destruct (bound_messages [] d) as (Hmn & Hms & Hxn & Hxs).
  pose proof (in_concat_owner msg_ascii (parts [] d) 1
                (part_owner_at [] d _ _ eq_refl)) as Ha.
  pose proof (in_concat_owner msg_trim (parts [] d) 2
                (part_owner_at [] d _ _ eq_refl)) as Ht.
  pose proof (in_concat_owner msg_int (parts [] d) 4
                (part_owner_at [] d _ _ eq_refl)) as Hi.
  pose proof (in_concat_owner msg_float (parts [] d) 5
                (part_owner_at [] d _ _ eq_refl)) as Hf.
  cbn [nth parts] in Ha, Ht, Hi, Hf.
  unfold ascii_part, trim_part, int_part, float_part, min_part, max_part in *.
  change (parseInt []) with S754_nan in *.
  change (parseFloat []) with S754_nan in *.
  change (utf8_encode []) with (@nil N) in *.
  change (trim []) with (@nil N) in *.
  cbn [ascii_loop isFinite] in *. unfold string_eqb in *.
  rewrite bool_decide_eq_true_2 in Ht by reflexivity.
  assert (A1 : ~ In msg_ascii (concat (parts [] d))).
  { rewrite Ha. destruct (isAscii d); intros H; destruct H. }
  assert (A2 : ~ In msg_trim (concat (parts [] d))).
  { rewrite Ht. destruct (isTrim d); intros H; destruct H. }
  assert (A3 : ~ In msg_max_str (concat (parts [] d))).
  { rewrite Hxs. destruct (maxVal d) as [|c|c]; [intros H; destruct H| |].
    - rewrite number_le_nan.
      intros [H|H]; [vm_compute in H; discriminate H | destruct H].
    - destruct c; simpl; intros H; destruct H. }
  assert (A4 : isInt d = true -> In msg_int (concat (parts [] d))).
  { intros He. apply Hi. rewrite He. now left. }
  assert (A5 : isFloat d = true -> In msg_float (concat (parts [] d))).
  { intros He. apply Hf. rewrite He. now left. }
  assert (A6 : forall b, minVal d = NumBound b ->
                 In msg_min_num (concat (parts [] d))).
  { intros b Hb. apply Hmn. rewrite Hb, number_ge_nan. now left. }
  assert (A7 : forall b, maxVal d = NumBound b ->
                 In msg_max_num (concat (parts [] d))).
  { intros b Hb. apply Hxn. rewrite Hb, number_le_nan. now left. }
  assert (A8 : forall b, minVal d = StrBound b ->
                 (In msg_min_str (concat (parts [] d)) <-> b <> [])).
  { intros b Hb. rewrite Hms, Hb. destruct b as [|c b]; simpl.
    - split; [intros H; destruct H | congruence].
    - split; [intros _; discriminate | intros _; now left]. }
  exact (conj A1 (conj A2 (conj A3 (conj A4 (conj A5 (conj A6 (conj A7 A8))))))).
Qed.

Lemma trim_start_idempotent (s : jsstring) :
  trim_start (trim_start s) = trim_start s.
Proof.
  induction s as [|c s IH]; [reflexivity|]. cbn [trim_start].
  destruct (is_white_space c) eqn:Hc; [exact IH|].
  cbn [trim_start]. now rewrite Hc.
Qed.

Lemma parseInt_trim_start (s : jsstring) : parseInt (trim_start s) = parseInt s.
Proof. unfold parseInt. now rewrite trim_start_idempotent. Qed.

Lemma parseFloat_trim_start (s : jsstring) :
  parseFloat (trim_start s) = parseFloat s.
Proof. unfold parseFloat. now rewrite trim_start_idempotent. Qed.

(** X20. The numeric rules read the cell after its leading white space:
    [isInt], [isFloat] and the numeric bounds give the same verdict on a
    cell and on the cell without its leading white space. *)
Theorem numeric_rules_skip_leading_white (s : jsstring) (d : ColDef) :
  well_formed d ->
  exists msgs msgs',
    checkCell (VString s) d = Ok msgs /\
    checkCell (VString (trim_start s)) d = Ok msgs' /\
    (In msg_int msgs <-> In msg_int msgs') /\
    (In msg_float msgs <-> In msg_float msgs') /\
    (In msg_min_num msgs <-> In msg_min_num msgs') /\
    (In msg_max_num msgs <-> In msg_max_num msgs').
Proof.
  intros Hwf.
  exists (concat (parts s d)), (concat (parts (trim_start s) d)).
  split; [exact (checkCell_string s d Hwf)|].
  split; [exact (checkCell_string (trim_start s) d Hwf)|].
  destruct (bound_messages s d) as (Hmn & _ & Hxn & _).
  destruct (bound_messages (trim_start s) d) as (Hmn' & _ & Hxn' & _).
  rewrite Hmn, Hmn', Hxn, Hxn'.
  rewrite !(in_concat_owner msg_int _ 4) by (apply part_owner_at; reflexivity).
  rewrite !(in_concat_owner msg_float _ 5) by (apply part_owner_at; reflexivity).
  cbn [nth parts].
  unfold int_part, float_part, min_part, max_part.
  rewrite parseInt_trim_start, parseFloat_trim_start.
  split; [reflexivity|]. split; [reflexivity|]. split.
  - destruct (minVal d) as [|b|b]; [reflexivity | reflexivity |].
    assert (Hno : forall c : bool,
               ~ In msg_min_num (if c then [msg_min_str] else [])).
    { intros [|] H; [|destruct H].
      destruct H as [H|[]]. vm_compute in H. discriminate H. }
    split; intros H; exfalso; exact (Hno _ H).
  - destruct (maxVal d) as [|b|b]; [reflexivity | reflexivity |].
    assert (Hno : forall c : bool,
               ~ In msg_max_num (if c then [msg_max_str] else [])).
    { intros [|] H; [|destruct H].
      destruct H as [H|[]]. vm_compute in H. discriminate H. }
    split; intros H; exfalso; exact (Hno _ H).
Qed.

(** ** Further lemmas on the loop *)

Lemma line_of_row_intro (r : Z) (rest : jsstring) :
  line_of_row r (js "(Row " ++ show_Z r ++ rest).
Proof. now exists rest. Qed.

Lemma cells_lines_of_row {m : Mode} (r : Z) (defs : ColumnDefs m) (rec : Rec m)
    (l : jsstring) :
  In l (fst (cells_lines r defs rec)) -> line_of_row r l.
Proof.
  destruct m; simpl.
  - apply (forEach_lines_In _ (line_of_row r)).
    intros d i line H. apply report_lines_In in H as [msg ->].
    apply line_of_row_intro.
  - apply (forEach_lines_In _ (line_of_row r)).
    intros d i line H. apply report_lines_In in H as [msg ->].
    apply line_of_row_intro.
Qed.

(** What one record adds to the output. *)
Lemma handle_record_output {m : Mode} (schema : Schema m) (rec : Rec m)
    (w : World) :
  exists lines,
    outstream (snd (handle_record schema rec w)) = outstream w ++ lines /\
    Forall (line_of_row (row w + 1)) lines /\
    row (snd (handle_record schema rec w)) = (row w + 1)%Z.
Proof.
  rewrite handle_record_cases. cbv zeta.
  destruct (row_le_skipRows _ _).
  - exists []. cbn [snd outstream row]. rewrite app_nil_r.
    repeat split. constructor.
  - destruct (isRowBlank rec).
    + exists [line_blank (row w + 1)]. cbn [snd outstream row].
      repeat split. constructor; [apply line_of_row_intro | constructor].
    + eexists. cbn [snd outstream row]. split; [reflexivity|].
      split; [|reflexivity]. apply Forall_app. split.
      * destruct (bool_decide _); constructor;
          [apply line_of_row_intro | constructor].
      * apply Forall_forall. intros l Hl. apply list_elem_of_In in Hl.
        now apply cells_lines_of_row in Hl.
Qed.

(** X13. A run only appends to the output, and every line it appends is
    labelled with the row number of one of the records it handled: what
    was written before stays, whether the run completes or throws. *)
Theorem readable_output {m : Mode} (schema : Schema m) (recs : list (Rec m))
    (w : World) :
  exists lines,
    outstream (snd (readable schema recs w)) = outstream w ++ lines /\
    Forall (fun l => exists r,
                (row w < r <= row w + Z.of_nat (List.length recs))%Z /\
                line_of_row r l) lines.
Proof.
  revert w. induction recs as [|rec recs IH]; intros w.
  - exists []. simpl. rewrite app_nil_r. split; [reflexivity | constructor].
  - cbn [readable]. unfold bindM.
    destruct (handle_record_output schema rec w) as (l1 & Hout & Hl1 & Hrow).
    assert (Hl1' : Forall (fun l => exists r,
                (row w < r <= row w + Z.of_nat (List.length (rec :: recs)))%Z /\
                line_of_row r l) l1).
    { eapply Forall_impl; [exact Hl1|]. intros l Hl. exists (row w + 1)%Z.
      split; [rewrite length_cons; lia | exact Hl]. }
    destruct (handle_record schema rec w) as [[[]|e] w1]; cbn [snd] in *.
    + destruct (IH w1) as (l2 & Hout2 & Hl2). exists (l1 ++ l2).
      split; [now rewrite Hout2, Hout, app_assoc|].
      apply Forall_app. split; [exact Hl1'|].
      eapply Forall_impl; [exact Hl2|]. intros l (r & Hr & Hl).
      exists r. split; [rewrite length_cons; lia | exact Hl].
    + exists l1. split; [exact Hout | exact Hl1'].
Qed.

(** X14. Records in the skipped rows are ignored entirely: a batch of
    records whose row numbers are all at most [skipRows] writes nothing,
    leaves [colsShould] as it is and only counts the rows. *)
Theorem skipped_rows_ignored {m : Mode} (schema : Schema m)
    (recs : list (Rec m)) (w : World) (k : Z) :
  skipRows schema = Some k ->
  (row w + Z.of_nat (List.length recs) <= k)%Z ->
  readable schema recs w
  = (Ok tt, {| colsShould := colsShould w;
               row := row w + Z.of_nat (List.length recs);
               outstream := outstream w |}).
Proof.
  intros Hk. revert w. induction recs as [|rec recs IH]; intros w Hle.
  - simpl. unfold ret. destruct w. simpl. now rewrite Z.add_0_r.
  - cbn [readable]. unfold bindM. rewrite handle_record_cases. cbv zeta.
    rewrite length_cons in Hle.
    unfold row_le_skipRows at 1. rewrite Hk.
    rewrite (proj2 (Z.leb_le _ _)) by lia.
    rewrite IH by (cbn [row]; lia). cbn [row colsShould outstream].
    rewrite length_cons. do 2 f_equal. lia.
Qed.

Lemma forEach_lines_silent {A} (F : A -> nat -> list jsstring * Result unit)
    (l : list A) (idx : nat) :
  (forall k x, l !! k = Some x -> F x (idx + k)%nat = ([], Ok tt)) ->
  forEach_lines F l idx = ([], Ok tt).
Proof.
  revert idx. induction l as [|x l IH]; intros idx H; simpl; [reflexivity|].
  pose proof (H 0%nat x eq_refl) as H0. rewrite Nat.add_0_r in H0.
  rewrite H0, (IH (S idx)); [reflexivity|].
  intros k y Hk. specialize (H (S k) y Hk). now rewrite Nat.add_succ_r in H.
Qed.

(** X15. A record that is counted, not blank, has the expected number of
    fields and passes every configured rule is handled silently: nothing
    is written, and the loop body completes. *)
Theorem conforming_record_silent {m : Mode} (schema : Schema m) (rec : Rec m)
    (w : World) :
  row_le_skipRows (row w + 1) (skipRows schema) = false ->
  ~ blank rec ->
  Some (colsThis rec) = expected w (colsThis rec) ->
  all_pass (columnDefs schema) rec ->
  handle_record schema rec w
  = (Ok tt, {| colsShould := expected w (colsThis rec);
               row := row w + 1;
               outstream := outstream w |}).
Proof.
  intros Hs Hb He Hp.
  assert (Hb' : isRowBlank rec = false).
  { destruct (isRowBlank rec) eqn:E; [|reflexivity].
    exfalso. apply Hb. now apply isRowBlank_blank. }
  assert (Hc : cells_lines (row w + 1) (columnDefs schema) rec = ([], Ok tt)).
  { revert Hp. generalize (columnDefs schema). clear.
    destruct m; cbn [cells_lines all_pass]; intros defs Hp;
      apply forEach_lines_silent; intros k x Hk; cbn [Nat.add];
      unfold report_lines; now rewrite (Hp _ _ Hk). }
  rewrite handle_record_cases. cbv zeta. rewrite Hs, Hb', Hc.
  rewrite bool_decide_eq_true_2 by exact He. cbn [fst snd app].
  now rewrite app_nil_r.
Qed.

Lemma colsShould_run {m : Mode} (schema : Schema m) (recs : list (Rec m))
    (w : World) (n : Z) :
  colsShould w = Some n -> n <> 0%Z ->
  colsShould (snd (readable schema recs w)) = Some n.
Proof.
  intros Hc Hn. revert w Hc.
  induction recs as [|rec recs IH]; intros w Hc; [exact Hc|].
  cbn [readable]. unfold bindM.
  pose proof (colsShould_step schema rec w n Hc Hn) as Hstep.
  destruct (handle_record schema rec w) as [[[]|e] w1]; cbn [snd] in *.
  - now apply IH.
  - exact Hstep.
Qed.

(** X16. When no column count is in effect, the first counted record
    sets it for the rest of the run to its own number of fields; a blank
    line in that place sets it to 1. *)
Theorem first_counted_record_sets_count {m : Mode} (schema : Schema m)
    (rec : Rec m) (recs : list (Rec m)) (w : World) :
  truthy (colsShould w) = false ->
  row_le_skipRows (row w + 1) (skipRows schema) = false ->
  colsThis rec <> 0%Z ->
  colsShould (snd (readable schema (rec :: recs) w)) = Some (colsThis rec) /\
  (blank rec ->
   colsShould (snd (readable schema (rec :: recs) w)) = Some 1%Z).
Proof.
  intros Ht Hs Hn.
  assert (H : colsShould (snd (readable schema (rec :: recs) w))
              = Some (colsThis rec)).
  { cbn [readable]. unfold bindM.
    pose proof (colsShould_latch schema rec w Ht Hs) as Hl.
    destruct (handle_record schema rec w) as [[[]|e] w1]; cbn [snd] in *.
    - now apply colsShould_run.
    - exact Hl. }
  split; [exact H|]. intros Hb. now rewrite H, (blank_colsThis rec Hb).
Qed.

(** X17. Only the configured columns are examined: two records that
    agree on the cells of the configured columns get the same cell
    diagnostics and the same outcome, whatever else they hold. *)
Theorem only_configured_columns_checked {m : Mode} (r : Z)
    (defs : ColumnDefs m) (rec1 rec2 : Rec m) (w : World) :
  same_configured_cells defs rec1 rec2 ->
  check_cells r defs rec1 w = check_cells r defs rec2 w.
Proof.
  intros Hsame. rewrite !check_cells_lines.
  assert (H : cells_lines r defs rec1 = cells_lines r defs rec2);
    [|now rewrite H].
  destruct m; cbn [cells_lines same_configured_cells] in *;
    apply forEach_lines_ext; intros k x Hk; cbn [Nat.add].
  - unfold array_get. rewrite (Hsame k); [reflexivity|].
    now apply lookup_lt_Some in Hk.
  - rewrite Forall_forall in Hsame.
    assert (Hx : x ∈ defs) by (now apply list_elem_of_lookup_2 in Hk).
    unfold object_get. now rewrite (Hsame x Hx).
Qed.

Lemma checkCell_undefined_throws (d : ColDef) :
  isAscii d = true \/ isTrim d = true ->
  checkCell VUndefined d = Throw TypeError.
Proof.
  intros H. unfold checkCell. cbv zeta.
  destruct (isAscii d); cbn [Buffer_from bindR]; [reflexivity|].
  destruct H as [H|H]; [discriminate H|]. rewrite H. reflexivity.
Qed.

Lemma checkCell_object_throws (str : jsstring) (d : ColDef) :
  isAscii d = true \/ isTrim d = true ->
  checkCell (VObject str) d = Throw TypeError.
Proof.
  intros H. unfold checkCell. cbv zeta.
  destruct (isAscii d); cbn [Buffer_from bindR]; [reflexivity|].
  destruct H as [H|H]; [discriminate H|]. rewrite H. reflexivity.
Qed.

Lemma checkCell_object_returns (str : jsstring) (d : ColDef) :
  isAscii d = false ->
  isTrim d = false ->
  well_formed d ->
  exists msgs, checkCell (VObject str) d = Ok msgs.
Proof.
  intros Ha Ht Hwf. unfold checkCell. cbv zeta. rewrite Ha, Ht.
  cbn [bindR].
  change (ToString (VObject str)) with (ToString (VString str)).
  rewrite (stage_regex str d _ Hwf). cbn [bindR].
  eexists. reflexivity.
Qed.

(** What a record has no property of its own for is [undefined] or a
    member of [Object.prototype]; neither goes through [isAscii] or
    [isTrim]. *)
Lemma checkCell_inherited_throws (key : jsstring) (d : ColDef) :
  isAscii d = true \/ isTrim d = true ->
  checkCell (Object_prototype key) d = Throw TypeError.
Proof.
  intros H. unfold Object_prototype.
  repeat match goal with
         | |- context [if ?c then _ else _] => destruct c
         end;
    first [ now apply checkCell_object_throws
          | now apply checkCell_undefined_throws ].
Qed.

(** With well-formed definitions a cell report completes or throws a
    [TypeError]. *)
Lemma report_lines_outcome (line : jsstring -> jsstring) (cell : cellval)
    (d : ColDef) :
  well_formed d ->
  snd (report_lines line cell d) = Ok tt \/
  snd (report_lines line cell d) = Throw TypeError.
Proof.
  intros Hwf. unfold report_lines. destruct cell as [|s|str].
  - destruct (isAscii d) eqn:Ha.
    { rewrite checkCell_undefined_throws by (left; exact Ha). now right. }
    destruct (isTrim d) eqn:Ht.
    { rewrite checkCell_undefined_throws by (right; exact Ht). now right. }
    rewrite (checkCell_undefined d Ha Ht Hwf). now left.
  - rewrite (checkCell_string s d Hwf). now left.
  - destruct (isAscii d) eqn:Ha.
    { rewrite checkCell_object_throws by (left; exact Ha). now right. }
    destruct (isTrim d) eqn:Ht.
    { rewrite checkCell_object_throws by (right; exact Ht). now right. }
    destruct (checkCell_object_returns str d Ha Ht Hwf) as [msgs ->].
    now left.
Qed.

Lemma forEach_lines_throws {A} (F : A -> nat -> list jsstring * Result unit)
    (l : list A) (idx : nat) (e : Error) :
  (forall k x, l !! k = Some x ->
     snd (F x (idx + k)%nat) = Ok tt \/ snd (F x (idx + k)%nat) = Throw e) ->
  (exists k x, l !! k = Some x /\ snd (F x (idx + k)%nat) = Throw e) ->
  snd (forEach_lines F l idx) = Throw e.
Proof.
  revert idx. induction l as [|x l IH]; intros idx Hall (k & y & Hk & Hy).
  - discriminate Hk.
  - simpl. pose proof (Hall 0%nat x eq_refl) as H0. rewrite Nat.add_0_r in H0.
    destruct (F x idx) as [ls [[]|e']] eqn:HF; simpl in H0.
    + assert (Hrest : snd (forEach_lines F l (S idx)) = Throw e).
      { apply IH.
        - intros j z Hj. specialize (Hall (S j) z Hj).
          now rewrite Nat.add_succ_r in Hall.
        - destruct k as [|k].
          + injection Hk as <-. rewrite Nat.add_0_r, HF in Hy. discriminate Hy.
          + exists k, y. split; [exact Hk|]. now rewrite Nat.add_succ_r in Hy. }
      destruct (forEach_lines F l (S idx)) as [ls' r]. exact Hrest.
    + destruct H0 as [H0|H0]; [discriminate H0 | exact H0].
Qed.

(** X18. A counted record that is not blank and lacks the cell of a
    column with [isAscii] or [isTrim] ends the run with a [TypeError]
    when the column definitions are well formed: the records after it
    are not handled, the row counter stays at its row. *)
Theorem absent_cell_ends_run {m : Mode} (schema : Schema m) (rec : Rec m)
    (recs : list (Rec m)) (w : World) :
  row_le_skipRows (row w + 1) (skipRows schema) = false ->
  ~ blank rec ->
  all_well_formed (columnDefs schema) ->
  absent_cell_throws (columnDefs schema) rec ->
  fst (readable schema (rec :: recs) w) = Throw TypeError /\
  row (snd (readable schema (rec :: recs) w)) = (row w + 1)%Z.
Proof.
  intros Hs Hb Hwf Habs.
  assert (Hb' : isRowBlank rec = false).
  { destruct (isRowBlank rec) eqn:E; [|reflexivity].
    exfalso. apply Hb. now apply isRowBlank_blank. }
  assert (Hc : snd (cells_lines (row w + 1) (columnDefs schema) rec)
               = Throw TypeError).
  { revert Hwf Habs. generalize (columnDefs schema). clear.
    destruct m; cbn [cells_lines all_well_formed absent_cell_throws];
      intros defs Hwf Habs; apply forEach_lines_throws.
    - intros k x Hk. apply report_lines_outcome.
      rewrite Forall_forall in Hwf. apply Hwf.
      now apply list_elem_of_lookup_2 in Hk.
    - destruct Habs as (idx & d & Hd & Hrec & Hrule).
      exists idx, d. split; [exact Hd|]. unfold report_lines, array_get.
      cbn [Nat.add]. rewrite Hrec. now rewrite checkCell_undefined_throws.
    - intros k x Hk. apply report_lines_outcome.
      rewrite Forall_forall in Hwf. apply (Hwf x).
      now apply list_elem_of_lookup_2 in Hk.
    - destruct Habs as (k & entry & Hd & Hrec & Hrule).
      exists k, entry. split; [exact Hd|]. unfold report_lines, object_get.
      rewrite Hrec. now rewrite checkCell_inherited_throws. }
  cbn [readable]. unfold bindM. rewrite handle_record_cases. cbv zeta.
  rewrite Hs, Hb', Hc. split; reflexivity.
Qed.

(** The body of the second version of the loop, case by case. *)
Lemma handle_record_explicit_cases {m : Mode} (schema : Schema m) (rec : Rec m)
    (w : World) :
  handle_record_explicit schema rec w =
  let r := (row w + 1)%Z in
  if row_le_skipRows r (skipRows schema) then
    (Ok tt, {| colsShould := colsShould w; row := r; outstream := outstream w |})
  else
    (snd (cells_lines r (columnDefs schema) rec),
     {| colsShould := colsShould w; row := r;
        outstream :=
          outstream w
          ++ (if truthy (columns schema)
                 && negb (bool_decide (columns schema = Some (colsThis rec)))
              then [line_schema_count r (columns schema) (colsThis rec)]
              else [])
          ++ fst (cells_lines r (columnDefs schema) rec) |}).
Proof.
  unfold handle_record_explicit, bindM, incr_row, get.
  cbn [row colsShould outstream].
  destruct (row_le_skipRows (row w + 1) (skipRows schema)); [reflexivity|].
  cbv zeta.
  destruct (truthy (columns schema)
            && negb (bool_decide (columns schema = Some (colsThis rec))));
    cbn [ret write row colsShould outstream];
    rewrite check_cells_lines; unfold append_out; cbn [row colsShould outstream];
    rewrite ?app_nil_r, <- ?app_assoc; reflexivity.
Qed.

(** X19. The two versions of the loop in [index.js] agree on every record
    that is not blank while the expected count is the one the schema gives:
    both skip the same rows, write a column count line for the same
    records, write the same cell diagnostics after it and end the same
    way. They differ in the wording of the count line. *)
Theorem loops_agree_on_explicit_count {m : Mode} (schema : Schema m)
    (rec : Rec m) (w : World) (n : Z) :
  columns schema = Some n ->
  colsShould w = Some n ->
  n <> 0%Z ->
  ~ blank rec ->
  exists (counted : bool) (cells : list jsstring) (res : Result unit),
    handle_record schema rec w
    = (res, {| colsShould := Some n; row := row w + 1;
               outstream :=
                 outstream w
                 ++ (if counted && negb (bool_decide (colsThis rec = n))
                     then [line_count (row w + 1) (Some n) (colsThis rec)]
                     else [])
                 ++ cells |}) /\
    handle_record_explicit schema rec w
    = (res, {| colsShould := Some n; row := row w + 1;
               outstream :=
                 outstream w
                 ++ (if counted && negb (bool_decide (colsThis rec = n))
                     then [line_schema_count (row w + 1) (Some n) (colsThis rec)]
                     else [])
                 ++ cells |}).
Proof.
  intros Hcols Hc Hn Hb.
  assert (Hb' : isRowBlank rec = false).
  { destruct (isRowBlank rec) eqn:E; [|reflexivity].
    exfalso. apply Hb. now apply isRowBlank_blank. }
  rewrite handle_record_cases, handle_record_explicit_cases. cbv zeta.
  rewrite (expected_established w n _ Hc Hn), Hb', Hcols, Hc.
  assert (Ht : truthy (Some n) = true).
  { unfold truthy. now rewrite (proj2 (Z.eqb_neq n 0) Hn). }
  rewrite Ht.
  destruct (row_le_skipRows (row w + 1) (skipRows schema)).
  - exists false, [], (Ok tt). cbn [andb app]. rewrite app_nil_r.
    split; reflexivity.
  - exists true, (fst (cells_lines (row w + 1) (columnDefs schema) rec)),
      (snd (cells_lines (row w + 1) (columnDefs schema) rec)).
    cbn [andb].
    destruct (decide (colsThis rec = n)) as [He|He].
    + rewrite !bool_decide_eq_true_2 by congruence. split; reflexivity.
    + rewrite !bool_decide_eq_false_2 by congruence. split; reflexivity.
Qed.

End Csvalid.

(** ** The properties at concrete inputs *)

Lemma checkCell_total_deterministic_witness :
  well_formed literal_RegExp empty_ascii_pattern /\
  exists msgs,
    checkCell literal_RegExp (VString (js "abc")) empty_ascii_pattern = Ok msgs /\
    forall r,
      checkCell literal_RegExp (VString (js "abc")) empty_ascii_pattern = r ->
      r = Ok msgs.
Proof.
  assert (Hwf : well_formed literal_RegExp empty_ascii_pattern)
    by (vm_compute; discriminate).
  split; [exact Hwf|].
  exact (checkCell_total_deterministic literal_RegExp (js "abc")
           empty_ascii_pattern Hwf).
Defined.

Lemma isEmpty_message_iff_witness :
  isEmpty empty_ascii_pattern = true /\
  well_formed literal_RegExp empty_ascii_pattern /\
  exists msgs,
    checkCell literal_RegExp (VString []) empty_ascii_pattern = Ok msgs /\
    (In msg_isnt_empty msgs <-> @nil N <> []) /\
    ~ In msg_is_empty msgs.
Proof.
  assert (Hwf : well_formed literal_RegExp empty_ascii_pattern)
    by (vm_compute; discriminate).
  split; [reflexivity|]. split; [exact Hwf|].
  exact (isEmpty_message_iff literal_RegExp [] empty_ascii_pattern eq_refl Hwf).
Defined.

Lemma isAscii_message_once_witness :
  isAscii empty_ascii_pattern = true /\
  well_formed literal_RegExp empty_ascii_pattern /\
  exists msgs,
    checkCell literal_RegExp (VString [233; 233]) empty_ascii_pattern = Ok msgs /\
    ((exists b, In b (utf8_encode [233; 233]) /\ (b < 32 \/ 126 < b)) ->
       occurrences msg_ascii msgs = 1%nat) /\
    ((forall b, In b (utf8_encode [233; 233]) -> 32 <= b <= 126) ->
       occurrences msg_ascii msgs = 0%nat).
Proof.
  assert (Hwf : well_formed literal_RegExp empty_ascii_pattern)
    by (vm_compute; discriminate).
  split; [reflexivity|]. split; [exact Hwf|].
  exact (isAscii_message_once literal_RegExp [233; 233] empty_ascii_pattern
           eq_refl Hwf).
Defined.

Lemma bounds_type_coherent_witness :
  well_formed literal_RegExp mixed_bounds /\
  exists msgs,
    checkCell literal_RegExp (VString (js "1.25")) mixed_bounds = Ok msgs /\
    In msg_min_num msgs /\ ~ In msg_max_str msgs.
Proof.
  assert (Hwf : well_formed literal_RegExp mixed_bounds) by exact I.
  split; [exact Hwf|].
  destruct (bounds_type_coherent literal_RegExp (js "1.25") mixed_bounds Hwf)
    as (msgs & Hm & Hmin & Hmax & _).
  exists msgs. split; [exact Hm|].
  cbn [minVal maxVal mixed_bounds] in Hmin, Hmax.
  destruct Hmin as [Hmin _]. destruct Hmax as [Hmax _]. split.
  - apply Hmin; [vm_compute; discriminate|]. right. vm_compute. reflexivity.
  - intros H. apply Hmax in H. vm_compute in H. discriminate H.
Defined.

Lemma isInt_message_iff_witness :
  isInt isInt_only = true /\
  well_formed literal_RegExp isInt_only /\
  exists msgs,
    checkCell literal_RegExp (VString (js " +0x1Fz")) isInt_only = Ok msgs /\
    (~ In msg_int msgs <-> begins_with_integer (js " +0x1Fz")).
Proof.
  split; [reflexivity|]. split; [exact I|].
  destruct (isInt_message_iff literal_RegExp (js " +0x1Fz") isInt_only
              eq_refl I) as (msgs & Hm & Hiff & _).
  exists msgs. split; [exact Hm | exact Hiff].
Defined.

(** C2 does not hold as stated: " 42" gives no integer message although
    it begins with a space, and "0x" gives one although it begins with
    the digit 0. *)
Lemma isInt_claim_counterexample :
  (checkCell literal_RegExp (VString (js " 42")) isInt_only = Ok [] /\
   ~ spec_begins_with_integer (js " 42")) /\
  (spec_begins_with_integer (js "0x") /\
   checkCell literal_RegExp (VString (js "0x")) isInt_only = Ok [msg_int]).
Proof.
  split; split.
  - vm_compute. reflexivity.
  - intros (sign & digits & rest & Heq & Hs & Hne & Hds & _).
    destruct Hs as [ -> | [ -> | -> ] ]; cbn in Heq.
    + destruct Hds as [|c cs Hc _]; [congruence|].
      cbn in Heq. injection Heq as <- _. apply Hc. vm_compute. reflexivity.
    + discriminate Heq.
    + discriminate Heq.
  - exists [], (js "0"), (js "x").
    split; [reflexivity|]. split; [now left|]. split; [discriminate|].
    split; [|split; vm_compute; reflexivity].
    constructor; [|constructor]. vm_compute. discriminate.
  - vm_compute. reflexivity.
Qed.

Lemma colsShould_fixed_witness :
  colsShould (initial schema_two_columns) = Some 2%Z /\
  2%Z <> 0%Z /\
  let w' := snd (readable literal_RegExp schema_two_columns
                   [record_blank; record_empty_x]
                   (initial schema_two_columns)) in
  colsShould w' = Some 2%Z /\
  outstream (snd (handle_record literal_RegExp schema_two_columns record_a w'))
  = [line_blank 1; line_count 3 (Some 2%Z) 1].
Proof.
  assert (Hn : 2%Z <> 0%Z) by lia.
  split; [reflexivity|]. split; [exact Hn|].
  destruct (colsShould_fixed literal_RegExp schema_two_columns
              (initial schema_two_columns) 2%Z eq_refl Hn
              [record_blank; record_empty_x]) as [Hfix Hcmp].
  split; [exact Hfix|].
  exact (proj1 (Hcmp record_a eq_refl eq_refl)).
Defined.

Lemma blank_record_one_line_witness :
  blank record_named_blank /\
  row_le_skipRows (row (initial schema_named) + 1) (skipRows schema_named) = false /\
  handle_record literal_RegExp schema_named record_named_blank
    (initial schema_named)
  = (Ok tt, {| colsShould := Some 1%Z; row := 2%Z;
               outstream := [line_blank 2] |}).
Proof.
  assert (Hb : blank record_named_blank) by (exists (js "name"); reflexivity).
  split; [exact Hb|]. split; [reflexivity|].
  exact (proj1 (blank_record_one_line literal_RegExp schema_named
                  record_named_blank (initial schema_named) Hb eq_refl)).
Defined.

(** C5 does not hold as stated: a blank record among the skipped rows
    gets no diagnostic. *)
Lemma blank_record_skipped_counterexample :
  blank record_blank /\
  handle_record literal_RegExp schema_skip_one record_blank
    (initial schema_skip_one)
  = (Ok tt, {| colsShould := Some 2%Z; row := 1%Z; outstream := [] |}).
Proof. split; reflexivity. Qed.

Lemma count_mismatch_one_line_witness :
  row_le_skipRows (row (initial schema_three_columns) + 1)
    (skipRows schema_three_columns) = false /\
  ~ blank record_empty_x /\
  Some (colsThis record_empty_x)
    <> expected (initial schema_three_columns) (colsThis record_empty_x) /\
  all_present (columnDefs schema_three_columns) record_empty_x /\
  all_well_formed literal_RegExp (columnDefs schema_three_columns) /\
  handle_record literal_RegExp schema_three_columns record_empty_x
    (initial schema_three_columns)
  = (Ok tt,
     {| colsShould := Some 3%Z; row := 1%Z;
        outstream := [line_count 1 (Some 3%Z) 2;
                      line_positional 1 0 msg_is_empty;
                      line_positional 1 1 msg_int] |}).
Proof.
  assert (Hb : ~ blank record_empty_x) by (intros H; discriminate H).
  assert (Hne : Some (colsThis record_empty_x)
                <> expected (initial schema_three_columns)
                     (colsThis record_empty_x))
    by (intros H; discriminate H).
  assert (Hp : all_present (columnDefs schema_three_columns) record_empty_x)
    by (simpl; lia).
  assert (Hwf : all_well_formed literal_RegExp (columnDefs schema_three_columns))
    by (repeat constructor).
  split; [reflexivity|]. split; [exact Hb|]. split; [exact Hne|].
  split; [exact Hp|]. split; [exact Hwf|].
  exact (proj2 (count_mismatch_one_line literal_RegExp schema_three_columns
                  record_empty_x (initial schema_three_columns)
                  eq_refl Hb Hne) Hp Hwf).
Defined.

(** C1, the code on a record that is too short. With the schema
    [{columns: 2, columnDefs: [{}, {noEmpty: true}]}] and the record of the
    one field "a", the second cell is [undefined] when it reaches
    [checkCell]: the run writes the column count line and nothing else,
    where the rule engine run on the empty string would add "is empty when
    it shouldn't be" for column 2. With [isTrim] on that column the run
    ends with a [TypeError] after the column count line, and the next
    record is not handled. *)
Theorem short_record_cell_undefined :
  array_get record_a 1 = VUndefined /\
  readable literal_RegExp schema_two_columns [record_a]
    (initial schema_two_columns)
  = (Ok tt,
     {| colsShould := Some 2%Z; row := 1%Z;
        outstream := [line_count 1 (Some 2%Z) 1] |}) /\
  spec_cells_lines literal_RegExp 1 (columnDefs schema_two_columns) record_a
  = ([line_positional 1 1 msg_is_empty], Ok tt) /\
  readable literal_RegExp schema_trim [record_a; record_empty_x]
    (initial schema_trim)
  = (Throw TypeError,
     {| colsShould := Some 2%Z; row := 1%Z;
        outstream := [line_count 1 (Some 2%Z) 1] |}).
Proof. repeat split; vm_compute; reflexivity. Qed.

(** C6 does not hold as stated: a column count of 0 given by the schema
    is in [colsShould] when the run starts, and the first counted record
    replaces it by its own number of fields. *)
Lemma colsShould_zero_replaced_counterexample :
  colsShould (initial schema_zero_columns) = Some 0%Z /\
  colsShould (snd (handle_record literal_RegExp schema_zero_columns
                     record_empty_x (initial schema_zero_columns)))
  = Some 2%Z.
Proof. split; vm_compute; reflexivity. Qed.

(** A column named as a member of [Object.prototype]: the record has no
    property of its own under [toString], so the cell is the inherited
    function, whose text holds "native"; under [other] the cell is
    [undefined]. *)
Lemma inherited_member_cell :
  object_get record_named_x (js "toString")
  = VObject (js "function toString() { [native code] }") /\
  object_get record_named_x (js "other") = VUndefined /\
  readable literal_RegExp schema_inherited [record_named_x]
    (initial schema_inherited)
  = (Ok tt,
     {| colsShould := Some 1%Z; row := 2%Z;
        outstream := [line_named 2 (js "other") msg_regex] |}).
Proof. repeat split; vm_compute; reflexivity. Qed.

(** The first scenario of the specification: two columns, [noEmpty] and
    [isInt], and the record of an empty string and "abc". *)
Lemma scenario_two_cell_diagnostics :
  readable literal_RegExp
    {| columns := None; skipRows := Some 0%Z;
       columnDefs := ([noEmpty_only; isInt_only] : ColumnDefs Positional) |}
    [([[]; js "abc"] : Rec Positional)]
    {| colsShould := None; row := 0%Z; outstream := [] |}
  = (Ok tt,
     {| colsShould := Some 2%Z; row := 1%Z;
        outstream := [js "(Row 1, Col 1): is empty when it shouldn't be" ++ [10];
                      js "(Row 1, Col 2): is not a finite integer" ++ [10]] |}).
Proof. vm_compute. reflexivity. Qed.

(** [parseFloat] and [parseInt] stop at the first code unit that cannot
    go on the number: "12abc" is 12 for both. *)
Lemma leading_prefix_parsing :
  parseFloat (js "12abc") = parseFloat (js "12") /\
  parseInt (js "12abc") = parseInt (js "12") /\
  isFinite (parseFloat (js "12abc")) = true /\
  parseFloat (js "abc") = S754_nan.
Proof. repeat split; vm_compute; reflexivity. Qed.

(** An integer is finite as a Number up to the rounding boundary of
    binary64, [2^1024 - 2^970]. *)
Lemma Number_of_integer_boundary :
  isFinite (Number_of_integer false (2 ^ 1024 - 2 ^ 970 - 1)) = true /\
  isFinite (Number_of_integer false (2 ^ 1024 - 2 ^ 970)) = false.
Proof. split; vm_compute; reflexivity. Qed.

(** The bytes [Buffer.from] gives for U+00E9, for U+1F600 as a surrogate
    pair, and for a high surrogate alone. *)
Lemma utf8_encode_samples :
  utf8_encode [233] = [195; 169] /\
  utf8_encode [55357; 56832] = [240; 159; 152; 128] /\
  utf8_encode [55357] = [239; 191; 189].
Proof. repeat split; vm_compute; reflexivity. Qed.

(** ** Further properties at concrete inputs *)

Lemma isTrim_message_iff_witness :
  isTrim isTrim_only = true /\
  well_formed literal_RegExp isTrim_only /\
  exists msgs,
    checkCell literal_RegExp (VString (js "a ")) isTrim_only = Ok msgs /\
    (In msg_trim msgs
     <-> starts_white (js "a ") = true \/ ends_white (js "a ") = true).
Proof.
  split; [reflexivity|]. split; [exact I|].
  exact (isTrim_message_iff literal_RegExp (js "a ") isTrim_only eq_refl I).
Defined.

Lemma isAscii_message_code_units_witness :
  isAscii empty_ascii_pattern = true /\
  well_formed literal_RegExp empty_ascii_pattern /\
  exists msgs,
    checkCell literal_RegExp (VString [98; 233]) empty_ascii_pattern = Ok msgs /\
    (In msg_ascii msgs <-> exists c, In c [98; 233] /\ (c < 32 \/ 126 < c)).
Proof.
  assert (Hwf : well_formed literal_RegExp empty_ascii_pattern)
    by (vm_compute; discriminate).
  split; [reflexivity|]. split; [exact Hwf|].
  exact (isAscii_message_code_units literal_RegExp [98; 233]
           empty_ascii_pattern eq_refl Hwf).
Defined.

Lemma noEmpty_message_iff_witness :
  isEmpty noEmpty_only = false /\
  noEmpty noEmpty_only = true /\
  well_formed literal_RegExp noEmpty_only /\
  exists msgs,
    checkCell literal_RegExp (VString []) noEmpty_only = Ok msgs /\
    (In msg_is_empty msgs <-> @nil N = []) /\
    ~ In msg_isnt_empty msgs.
Proof.
  split; [reflexivity|]. split; [reflexivity|]. split; [exact I|].
  exact (noEmpty_message_iff literal_RegExp [] noEmpty_only eq_refl eq_refl I).
Defined.

Lemma regex_rule_witness :
  regex_source empty_ascii_pattern = Some (js "b") /\
  exists msgs,
    checkCell literal_RegExp (VString (js "abc")) empty_ascii_pattern = Ok msgs /\
    (In msg_regex msgs <-> substring_search (js "b") (js "abc") = false).
Proof.
  split; [reflexivity|].
  exact (regex_rule literal_RegExp (js "abc") empty_ascii_pattern (js "b")
           eq_refl).
Defined.

Lemma messages_in_rule_order_witness :
  well_formed literal_RegExp empty_ascii_pattern /\
  exists msgs,
    checkCell literal_RegExp (VString [233]) empty_ascii_pattern = Ok msgs /\
    sublist msgs rule_order /\
    NoDup msgs /\
    (List.length msgs <= 8)%nat.
Proof.
  assert (Hwf : well_formed literal_RegExp empty_ascii_pattern)
    by (vm_compute; discriminate).
  split; [exact Hwf|].
  exact (messages_in_rule_order literal_RegExp [233] empty_ascii_pattern Hwf).
Defined.

Lemma checkCell_undefined_messages_witness :
  isAscii mixed_bounds = false /\
  isTrim mixed_bounds = false /\
  well_formed literal_RegExp mixed_bounds /\
  exists msgs,
    checkCell literal_RegExp VUndefined mixed_bounds = Ok msgs /\
    (isEmpty mixed_bounds = true -> In msg_isnt_empty msgs) /\
    ~ In msg_is_empty msgs /\
    (isInt mixed_bounds = true -> In msg_int msgs) /\
    (isFloat mixed_bounds = true -> In msg_float msgs) /\
    (minVal mixed_bounds <> NoBound ->
     In msg_min_num msgs \/ In msg_min_str msgs) /\
    (maxVal mixed_bounds <> NoBound ->
     In msg_max_num msgs \/ In msg_max_str msgs).
Proof.
  split; [reflexivity|]. split; [reflexivity|]. split; [exact I|].
  exact (checkCell_undefined_messages literal_RegExp mixed_bounds
           eq_refl eq_refl I).
Defined.

Lemma string_bounds_point_witness :
  minVal string_point = StrBound (js "m") /\
  maxVal string_point = StrBound (js "m") /\
  well_formed literal_RegExp string_point /\
  exists msgs,
    checkCell literal_RegExp (VString (js "ma")) string_point = Ok msgs /\
    (~ In msg_min_str msgs /\ ~ In msg_max_str msgs <-> js "ma" = js "m").
Proof.
  split; [reflexivity|]. split; [reflexivity|]. split; [exact I|].
  exact (string_bounds_point literal_RegExp (js "ma") (js "m") string_point
           eq_refl eq_refl I).
Defined.

Lemma string_bounds_empty_range_witness :
  minVal string_empty_range = StrBound (js "n") /\
  maxVal string_empty_range = StrBound (js "m") /\
  string_lt (js "m") (js "n") = true /\
  well_formed literal_RegExp string_empty_range /\
  exists msgs,
    checkCell literal_RegExp (VString (js "mm")) string_empty_range = Ok msgs /\
    (In msg_min_str msgs \/ In msg_max_str msgs).
Proof.
  split; [reflexivity|]. split; [reflexivity|]. split; [reflexivity|].
  split; [exact I|].
  exact (string_bounds_empty_range literal_RegExp (js "mm") (js "n") (js "m")
           string_empty_range eq_refl eq_refl eq_refl I).
Defined.

Lemma numeric_bounds_point_witness :
  minVal number_point = NumBound (parseFloat (js "1.5")) /\
  maxVal number_point = NumBound (parseFloat (js "1.5")) /\
  well_formed literal_RegExp number_point /\
  exists msgs,
    checkCell literal_RegExp (VString (js "1.50")) number_point = Ok msgs /\
    (~ In msg_min_num msgs /\ ~ In msg_max_num msgs
     <-> SFeqb (parseFloat (js "1.50")) (parseFloat (js "1.5")) = true).
Proof.
  split; [reflexivity|]. split; [reflexivity|]. split; [exact I|].
  exact (numeric_bounds_point literal_RegExp (js "1.50")
           (parseFloat (js "1.5")) number_point eq_refl eq_refl I).
Defined.

Lemma empty_cell_rules_witness :
  well_formed literal_RegExp mixed_bounds /\
  exists msgs,
    checkCell literal_RegExp (VString []) mixed_bounds = Ok msgs /\
    ~ In msg_ascii msgs /\
    ~ In msg_trim msgs /\
    ~ In msg_max_str msgs /\
    (isInt mixed_bounds = true -> In msg_int msgs) /\
    (isFloat mixed_bounds = true -> In msg_float msgs) /\
    (forall b, minVal mixed_bounds = NumBound b -> In msg_min_num msgs) /\
    (forall b, maxVal mixed_bounds = NumBound b -> In msg_max_num msgs) /\
    (forall b, minVal mixed_bounds = StrBound b ->
               (In msg_min_str msgs <-> b <> [])).
Proof.
  split; [exact I|].
  exact (empty_cell_rules literal_RegExp mixed_bounds I).
Defined.

Lemma skipped_rows_ignored_witness :
  skipRows schema_skip_one = Some 1%Z /\
  (row (initial schema_skip_one) + Z.of_nat (List.length [record_blank]) <= 1)%Z /\
  readable literal_RegExp schema_skip_one [record_blank]
    (initial schema_skip_one)
  = (Ok tt,
     {| colsShould := colsShould (initial schema_skip_one);
        row := row (initial schema_skip_one)
               + Z.of_nat (List.length [record_blank]);
        outstream := outstream (initial schema_skip_one) |}).
Proof.
  assert (Hle : (row (initial schema_skip_one)
                 + Z.of_nat (List.length [record_blank]) <= 1)%Z)
    by (vm_compute; discriminate).
  split; [reflexivity|]. split; [exact Hle|].
  exact (skipped_rows_ignored literal_RegExp schema_skip_one [record_blank]
           (initial schema_skip_one) 1%Z eq_refl Hle).
Defined.

Lemma conforming_record_silent_witness :
  row_le_skipRows (row (initial schema_two_columns) + 1)
    (skipRows schema_two_columns) = false /\
  ~ blank record_a_x /\
  Some (colsThis record_a_x)
    = expected (initial schema_two_columns) (colsThis record_a_x) /\
  all_pass literal_RegExp (columnDefs schema_two_columns) record_a_x /\
  handle_record literal_RegExp schema_two_columns record_a_x
    (initial schema_two_columns)
  = (Ok tt,
     {| colsShould := expected (initial schema_two_columns)
                        (colsThis record_a_x);
        row := row (initial schema_two_columns) + 1;
        outstream := outstream (initial schema_two_columns) |}).
Proof.
  assert (Hb : ~ blank record_a_x) by (intros H; discriminate H).
  assert (Hp : all_pass literal_RegExp (columnDefs schema_two_columns)
                 record_a_x).
  { intros [|[|idx]] d Hd; try discriminate Hd;
      injection Hd as <-; reflexivity. }
  split; [reflexivity|]. split; [exact Hb|]. split; [reflexivity|].
  split; [exact Hp|].
  exact (conforming_record_silent literal_RegExp schema_two_columns record_a_x
           (initial schema_two_columns) eq_refl Hb eq_refl Hp).
Defined.

Lemma first_counted_record_sets_count_witness :
  truthy (colsShould (initial schema_named)) = false /\
  row_le_skipRows (row (initial schema_named) + 1) (skipRows schema_named)
    = false /\
  colsThis record_named_blank <> 0%Z /\
  colsShould (snd (readable literal_RegExp schema_named
                     [record_named_blank; record_named_blank]
                     (initial schema_named)))
    = Some (colsThis record_named_blank) /\
  (blank record_named_blank ->
   colsShould (snd (readable literal_RegExp schema_named
                      [record_named_blank; record_named_blank]
                      (initial schema_named)))
     = Some 1%Z).
Proof.
  assert (Hn : colsThis record_named_blank <> 0%Z)
    by (vm_compute; discriminate).
  split; [reflexivity|]. split; [reflexivity|]. split; [exact Hn|].
  exact (first_counted_record_sets_count literal_RegExp schema_named
           record_named_blank [record_named_blank] (initial schema_named)
           eq_refl eq_refl Hn).
Defined.

Lemma only_configured_columns_checked_witness :
  same_configured_cells (columnDefs schema_two_columns)
    record_empty_x record_surplus /\
  check_cells literal_RegExp 1 (columnDefs schema_two_columns) record_empty_x
    (initial schema_two_columns)
  = check_cells literal_RegExp 1 (columnDefs schema_two_columns) record_surplus
      (initial schema_two_columns).
Proof.
  assert (Hs : same_configured_cells (columnDefs schema_two_columns)
                 record_empty_x record_surplus).
  { intros [|[|idx]] Hlt; [reflexivity | reflexivity |].
    cbn in Hlt. lia. }
  split; [exact Hs|].
  exact (only_configured_columns_checked literal_RegExp 1
           (columnDefs schema_two_columns) record_empty_x record_surplus
           (initial schema_two_columns) Hs).
Defined.

Lemma absent_cell_ends_run_witness :
  row_le_skipRows (row (initial schema_trim) + 1) (skipRows schema_trim)
    = false /\
  ~ blank record_a /\
  all_well_formed literal_RegExp (columnDefs schema_trim) /\
  absent_cell_throws (columnDefs schema_trim) record_a /\
  fst (readable literal_RegExp schema_trim [record_a; record_empty_x]
         (initial schema_trim)) = Throw TypeError /\
  row (snd (readable literal_RegExp schema_trim [record_a; record_empty_x]
              (initial schema_trim)))
    = (row (initial schema_trim) + 1)%Z.
Proof.
  assert (Hb : ~ blank record_a) by (intros H; discriminate H).
  assert (Hwf : all_well_formed literal_RegExp (columnDefs schema_trim))
    by (repeat constructor).
  assert (Ha : absent_cell_throws (columnDefs schema_trim) record_a).
  { exists 1%nat, isTrim_only. split; [reflexivity|].
    split; [reflexivity|]. right. reflexivity. }
  split; [reflexivity|]. split; [exact Hb|]. split; [exact Hwf|].
  split; [exact Ha|].
  exact (absent_cell_ends_run literal_RegExp schema_trim record_a
           [record_empty_x] (initial schema_trim) eq_refl Hb Hwf Ha).
Defined.

Lemma loops_agree_on_explicit_count_witness :
  columns schema_two_columns = Some 2%Z /\
  colsShould (initial schema_two_columns) = Some 2%Z /\
  2%Z <> 0%Z /\
  ~ blank record_a /\
  exists (counted : bool) (cells : list jsstring) (res : Result unit),
    handle_record literal_RegExp schema_two_columns record_a
      (initial schema_two_columns)
    = (res, {| colsShould := Some 2%Z;
               row := row (initial schema_two_columns) + 1;
               outstream :=
                 outstream (initial schema_two_columns)
                 ++ (if counted && negb (bool_decide (colsThis record_a = 2%Z))
                     then [line_count (row (initial schema_two_columns) + 1)
                             (Some 2%Z) (colsThis record_a)]
                     else [])
                 ++ cells |}) /\
    handle_record_explicit literal_RegExp schema_two_columns record_a
      (initial schema_two_columns)
    = (res, {| colsShould := Some 2%Z;
               row := row (initial schema_two_columns) + 1;
               outstream :=
                 outstream (initial schema_two_columns)
                 ++ (if counted && negb (bool_decide (colsThis record_a = 2%Z))
                     then [line_schema_count
                             (row (initial schema_two_columns) + 1)
                             (Some 2%Z) (colsThis record_a)]
                     else [])
                 ++ cells |}).
Proof.
  assert (Hn : 2%Z <> 0%Z) by lia.
  assert (Hb : ~ blank record_a) by (intros H; discriminate H).
  split; [reflexivity|]. split; [reflexivity|]. split; [exact Hn|].
  split; [exact Hb|].
  exact (loops_agree_on_explicit_count literal_RegExp schema_two_columns
           record_a (initial schema_two_columns) 2%Z eq_refl eq_refl Hn Hb).
Defined.

Lemma numeric_rules_skip_leading_white_witness :
  well_formed literal_RegExp mixed_bounds /\
  exists msgs msgs',
    checkCell literal_RegExp (VString (js " 2")) mixed_bounds = Ok msgs /\
    checkCell literal_RegExp (VString (trim_start (js " 2"))) mixed_bounds
      = Ok msgs' /\
    (In msg_int msgs <-> In msg_int msgs') /\
    (In msg_float msgs <-> In msg_float msgs') /\
    (In msg_min_num msgs <-> In msg_min_num msgs') /\
    (In msg_max_num msgs <-> In msg_max_num msgs').
Proof.
  split; [exact I|].
  exact (numeric_rules_skip_leading_white literal_RegExp (js " 2")
           mixed_bounds I).
Defined.
